(** * Job completion check of [condor/check_jobs.py]

    A shallow embedding of the script that compares the HTCondor jobs
    submitted for a (processor, tag, year) batch with the outputs found on
    storage, and of the properties its specification states about it.

    The script is a sequence of top-level statements.  They are embedded
    in a small state-and-exception monad: the state holds the two result
    lists [missing_files] and [err_files] together with the trace of
    observable calls ([print], [print_red], [os.system]); an uncaught
    Python exception ends the run and keeps the state reached so far. *)

From Stdlib Require Import ZArith Ascii String.
From stdpp Require Import base decidable list strings pretty sorting gmap.

Local Open Scope string_scope.
Local Open Scope Z_scope.

(** ** Python built-ins used by the script *)

Module Py.

(** [s.split(sep)] for a one-character separator: every occurrence of
    [sep] ends a field; the result always has at least one field. *)
Fixpoint split (sep : ascii) (s : string) : list string :=
  match s with
  | EmptyString => [ EmptyString ]
  | String c s' =>
      if Ascii.eqb c sep then EmptyString :: split sep s'
      else match split sep s' with
           | w :: ws => String c w :: ws
           | [] => [ String c EmptyString ]
           end
  end.

(** [sep.join(l)]. *)
Fixpoint join (sep : string) (l : list string) : string :=
  match l with
  | [] => EmptyString
  | [ w ] => w
  | w :: ws => w +:+ sep +:+ join sep ws
  end.

(** [s.endswith(suffix)]. *)
Definition endswith (s suffix : string) : bool :=
  let n := String.length s in
  let k := String.length suffix in
  (k <=? n)%nat && String.eqb (substring (n - k) k s) suffix.

(** [s[:-k]]: the string without its last [k] characters. *)
Definition drop_last (k : nat) (s : string) : string :=
  substring 0 (String.length s - k) s.

(** [l[0]] and [l[-1]] on the result of [split], which is never empty;
    the default is the value for the empty list, which does not arise. *)
Definition first (l : list string) : string := hd EmptyString l.
Definition last (l : list string) : string := List.last l EmptyString.

(** [l[1:-1]]: the list without its first and its last element. *)
Definition middle (l : list string) : list string :=
  List.removelast (tl l).

(** [range(n)]: [0, 1, ..., n-1], empty when [n <= 0]. *)
Definition range (n : Z) : list Z :=
  Z.of_nat <$> seq 0 (Z.to_nat n).

(** [str(i)] for an integer, as produced by an f-string. *)
Definition str (i : Z) : string := pretty i.

(** [str(l)] for a list of integers, as produced by an f-string. *)
Definition str_list (l : list Z) : string :=
  "[" +:+ join ", " (str <$> l) +:+ "]".

(** [i in l] for a list of integers. *)
Definition elem (i : Z) (l : list Z) : bool := bool_decide (i ∈ l).

End Py.

(** A plain reading of [int(s)] on ASCII input: optional surrounding
    white space, an optional sign, then decimal digits.  It is used to
    run the model on concrete listings; the model itself takes Python's
    [int] as a parameter. *)
Module IntLiteral.

Definition is_space (c : ascii) : bool :=
  let n := nat_of_ascii c in
  ((9 <=? n)%nat && (n <=? 13)%nat) || (n =? 32)%nat.

Definition digit (c : ascii) : option Z :=
  let n := nat_of_ascii c in
  if ((48 <=? n)%nat && (n <=? 57)%nat)%bool
  then Some (Z.of_nat (n - 48)) else None.

Fixpoint lstrip (s : string) : string :=
  match s with
  | String c s' => if is_space c then lstrip s' else s
  | EmptyString => EmptyString
  end.

Definition strip (s : string) : string :=
  String.rev (lstrip (String.rev (lstrip s))).

Fixpoint digits (acc : Z) (s : string) : option Z :=
  match s with
  | EmptyString => Some acc
  | String c s' =>
      match digit c with
      | Some d => digits (10 * acc + d) s'
      | None => None
      end
  end.

Definition unsigned (s : string) : option Z :=
  match s with
  | EmptyString => None
  | _ => digits 0 s
  end.

Definition int (s : string) : option Z :=
  match strip s with
  | String "-" s' => Z.opp <$> unsigned s'
  | String "+" s' => unsigned s'
  | s' => unsigned s'
  end.

End IntLiteral.


(** The part of numpy the script uses: [np.sort(x)[-1] + 1] on a list of
    Python integers, on the 64-bit Linux hosts the script runs on.

    [np.sort] first makes an array of the list.  Each Python integer is
    given the first type that holds it among [int64], [uint64] and
    [object]; the array takes the common type of its elements, which for
    [int64] together with [uint64] is [float64].  The element taken from
    the array has the type of the array; adding the Python integer 1
    keeps that type, as numpy 2 has it (numpy 1 made a [float64] of a
    [uint64] element here): an [int64] or [uint64] sum wraps around, an
    [object] element is the Python integer itself. *)
Module Np.

Definition int64_min : Z := - 2 ^ 63.
Definition int64_max : Z := 2 ^ 63 - 1.
Definition uint64_max : Z := 2 ^ 64 - 1.

Definition is_int64 (z : Z) : Prop := int64_min <= z <= int64_max.

Definition wrap64 (z : Z) : Z := (z + 2 ^ 63) mod 2 ^ 64 - 2 ^ 63.

Inductive dtype : Type := int64 | uint64 | float64 | object.

(** The type found for one Python integer. *)
Definition dtype_of (z : Z) : dtype :=
  if bool_decide (int64_min <= z <= int64_max) then int64
  else if bool_decide (0 <= z <= uint64_max) then uint64
  else object.

(** The common type of two of these types. *)
Definition promote (a b : dtype) : dtype :=
  match a, b with
  | object, _ | _, object => object
  | float64, _ | _, float64 => float64
  | int64, int64 => int64
  | uint64, uint64 => uint64
  | int64, uint64 | uint64, int64 => float64
  end.

(** The type of [np.array(x)]; the empty array is a [float64] one. *)
Definition array_dtype (x : list Z) : dtype :=
  match x with
  | [] => float64
  | z :: x' => foldr (λ y t, promote (dtype_of y) t) (dtype_of z) x'
  end.

(** A scalar as the script uses it, which is as the argument of [range]
    only: an integer ([np.int64], [np.uint64] or a Python [int], which
    [range] takes through [__index__]), or a [np.float64], which [range]
    refuses whatever its value; that value is not kept. *)
Inductive scalar : Type :=
  | Integer (n : Z)
  | Float64.

(** [np.sort(x)]: ascending order. *)
Definition sort (x : list Z) : list Z := merge_sort Z.le x.

(** [a[-1]] on a non-empty array. *)
Definition last (a : list Z) : Z := List.last a 0.

(** [v + k] for an element [v] of an array of type [t] and a small
    Python integer [k]. *)
Definition add (t : dtype) (v k : Z) : scalar :=
  match t with
  | int64 => Integer (wrap64 (v + k))
  | uint64 => Integer ((v + k) mod 2 ^ 64)
  | float64 => Float64
  | object => Integer (v + k)
  end.

End Np.

(** ** The script and its environment *)

Module CheckJobs.

(** *** The environment of a run *)

(** What a path names on storage.  [Path(p).exists()] holds for both
    kinds of node; [listdir(p)] succeeds on a directory only.  Permission
    and I/O faults are not modelled. *)
Inductive node : Type :=
  | File
  | Dir (entries : list string).

Definition filesystem : Type := string → option node.

Inductive site_choice : Type := lpc | ucsd.
Inductive analysis_choice : Type := bbbb | bbtautau.

(** The parsed command line ([args]). *)
Record arguments : Type := Args {
  processor : string;
  analysis : analysis_choice;
  site : site_choice;
  tag : string;
  year : string;
  user : string;
  submit_missing : bool;
  check_running : bool
}.

Definition analysis_name (a : analysis_choice) : string :=
  match a with bbbb => "bbbb" | bbtautau => "bbtautau" end.

(** *** State, exceptions and the monad of the script *)

(** Calls whose effect is outside the script.  [print_red] lives in
    [boostedhh.submit_utils]; only the call and its argument are kept. *)
Inductive event : Type :=
  | Print (line : string)
  | PrintRed (line : string)
  | System (command : string).

Inductive exn : Type :=
  | KeyError (key : string)
  | ValueError (literal : string)
  | FileNotFoundError (path : string)
  | NotADirectoryError (path : string)
  | TypeError (message : string).

Record state : Type := State {
  missing_files : list string;
  err_files : list string;
  trace : list event
}.

Definition initial : state := State [] [] [].

Definition M (A : Type) : Type := state → (exn + A) * state.

Definition raise {A} (e : exn) : M A := λ σ, (inl e, σ).

(** The monad operations, as instances of the classes behind the
    notations [x ← m; k] and [m;; k]. *)
#[global] Instance M_ret : MRet M := λ A a σ, (inr a, σ).

#[global] Instance M_bind : MBind M := λ A B k m σ,
  match m σ with
  | (inr a, σ') => k a σ'
  | (inl e, σ') => (inl e, σ')
  end.

(** [for x in l: body(x)]; an exception in the body leaves the loop. *)
Fixpoint for_ {A} (l : list A) (body : A → M unit) : M unit :=
  match l with
  | [] => mret tt
  | x :: l' => body x;; for_ l' body
  end.

(** A list comprehension [[f(x) for x in l]] whose element expression may
    raise. *)
Fixpoint comprehension {A B} (f : A → M B) (l : list A) : M (list B) :=
  match l with
  | [] => mret []
  | x :: l' => y ← f x; ys ← comprehension f l'; mret (y :: ys)
  end.

Definition when (b : bool) (m : M unit) : M unit :=
  if b then m else mret tt.

Definition emit (e : event) : M unit :=
  λ σ, (inr tt, State (missing_files σ) (err_files σ) (trace σ ++ [e])).

Definition print (line : string) : M unit := emit (Print line).
Definition print_red (line : string) : M unit := emit (PrintRed line).
Definition os_system (command : string) : M unit := emit (System command).

(** [missing_files.append(f)] and [err_files.append(f)]. *)
Definition missing_files_append (f : string) : M unit :=
  λ σ, (inr tt, State (missing_files σ ++ [f]) (err_files σ) (trace σ)).

Definition err_files_append (f : string) : M unit :=
  λ σ, (inr tt, State (missing_files σ) (err_files σ ++ [f]) (trace σ)).

Definition path_exists (fs : filesystem) (p : string) : bool :=
  match fs p with Some _ => true | None => false end.

(** The message of the [TypeError] that [range] raises on a
    [np.float64]. *)
Definition float64_not_integer : string :=
  "'numpy.float64' object cannot be interpreted as an integer".

Definition listdir (fs : filesystem) (p : string) : M (list string) :=
  match fs p with
  | Some (Dir entries) => mret entries
  | Some File => raise (NotADirectoryError p)
  | None => raise (FileNotFoundError p)
  end.

(** *** The script *)

Section Script.

(** Python's [int] on a string: the integer read, or [None] where
    [int] raises [ValueError]. *)
Variable int : string → option Z.
Variable args : arguments.
Variable fs : filesystem.

Definition py_int (s : string) : M Z :=
  match int s with
  | Some z => mret z
  | None => raise (ValueError s)
  end.

Definition cmspath : string :=
  match site args with
  | lpc => "/eos/uscms/"
  | ucsd => "/ceph/cms/"
  end.

Definition xrddir : string :=
  cmspath +:+ "/store/user/" +:+ user args +:+ "/"
    +:+ analysis_name (analysis args) +:+ "/" +:+ processor args +:+ "/"
    +:+ tag args +:+ "/" +:+ year args +:+ "/".

(** [condor/{processor}/{tag}/], the directory of the submission
    directives. *)
Definition condor_dir : string :=
  "condor/" +:+ processor args +:+ "/" +:+ tag args +:+ "/".

(** [f"{args.year}_{sample}_{i}"]. *)
Definition job_name (sample : string) (i : Z) : string :=
  year args +:+ "_" +:+ sample +:+ "_" +:+ Py.str i.

Definition jdl_file (sample : string) (i : Z) : string :=
  condor_dir +:+ job_name sample i +:+ ".jdl".

Definition err_file (sample : string) (i : Z) : string :=
  condor_dir +:+ "logs/" +:+ job_name sample i +:+ ".err".

Definition parquet_dir (sample : string) : string :=
  xrddir +:+ "/" +:+ sample +:+ "/parquet".

Definition pickles_dir (sample : string) : string :=
  xrddir +:+ "/" +:+ sample +:+ "/pickles".

(** *** Expected job counts (lines 57-68) *)

(** The filter of the comprehension:
    [jdl.split("_")[0] == args.year and
     "_".join(jdl.split("_")[1:-1]) == sample]. *)
Definition jdl_matches (sample jdl : string) : bool :=
  bool_decide (Py.first (Py.split "_" jdl) = year args)
  && bool_decide (Py.join "_" (Py.middle (Py.split "_" jdl)) = sample).

(** The text given to [int]: [jdl[:-4].split("_")[-1]]. *)
Definition jdl_index_text (jdl : string) : string :=
  Py.last (Py.split "_" (Py.drop_last 4 jdl)).

(** The list [x] built for one sample. *)
Definition sample_indices (jdls : list string) (sample : string)
  : M (list Z) :=
  comprehension (λ jdl, py_int (jdl_index_text jdl))
                (filter (λ jdl, jdl_matches sample jdl) jdls).

(** One turn of the loop that fills [jdl_dict]. *)
Definition jdl_dict_step (jdls : list string)
    (jdl_dict : gmap string Np.scalar) (sample : string)
  : M (gmap string Np.scalar) :=
  x ← sample_indices jdls sample;
  if (0 <? length x)%nat
  then mret (<[sample := Np.add (Np.array_dtype x) (Np.last (Np.sort x)) 1]>
               jdl_dict)
  else mret jdl_dict.

Fixpoint jdl_dict_loop (jdls : list string) (jdl_dict : gmap string Np.scalar)
    (samples : list string) : M (gmap string Np.scalar) :=
  match samples with
  | [] => mret jdl_dict
  | sample :: rest =>
      jdl_dict' ← jdl_dict_step jdls jdl_dict sample;
      jdl_dict_loop jdls jdl_dict' rest
  end.

Definition build_jdl_dict (samples jdls : list string)
  : M (gmap string Np.scalar) :=
  jdl_dict_loop jdls ∅ samples.

(** *** Running jobs (lines 85-91) *)

Definition newline : string := String (ascii_of_nat 10) EmptyString.

(** [[s[:-4] for s in lines if s.endswith(".sh\n")]]. *)
Definition running_of_lines (lines : list string) : list string :=
  Py.drop_last 4 <$> filter (λ s, Py.endswith s (".sh" +:+ newline)) lines.

(** [condor_q_lines] is what [running_jobs.txt] holds once the
    [condor_q] command has written it. *)
Definition read_running_jobs (condor_q_lines : list string)
  : M (list string) :=
  if check_running args then
    os_system "condor_q | awk '{print $9}' > running_jobs.txt";;
    mret (running_of_lines condor_q_lines)
  else mret [].

(** *** The check of one sample (lines 98-156) *)

(** The text given to [int] for an output file:
    [out.split(".")[0].split("_")[-1]]. *)
Definition out_index_text (out : string) : string :=
  Py.last (Py.split "_" (Py.first (Py.split "." out))).

(** [[int(...) for out in listdir(dir)]]. *)
Definition out_indices (dir : string) : M (list Z) :=
  outs ← listdir fs dir;
  comprehension (λ out, py_int (out_index_text out)) outs.

Variable jdl_dict : gmap string Np.scalar.
Variable running_jobs : list string.

(** [jdl_dict[sample]]. *)
Definition jdl_dict_get (sample : string) : M Np.scalar :=
  match jdl_dict !! sample with
  | Some n => mret n
  | None => raise (KeyError sample)
  end.

(** [range(n)] for a value of [jdl_dict]. *)
Definition range_ (n : Np.scalar) : M (list Z) :=
  match n with
  | Np.Integer n => mret (Py.range n)
  | Np.Float64 => raise (TypeError float64_not_integer)
  end.

Definition is_running (sample : string) (i : Z) : bool :=
  bool_decide (job_name sample i ∈ running_jobs).

Definition not_trigger : bool :=
  bool_decide (processor args ≠ "trigger").

(** Lines 109-119: the body of the loop taken when the parquet
    directory is missing. *)
Definition no_parquet_body (sample : string) (i : Z) : M unit :=
  if is_running sample i then
    print ("Job #" +:+ Py.str i +:+ " for sample " +:+ sample
             +:+ " is running.")
  else
    print (jdl_file sample i);;
    missing_files_append (jdl_file sample i);;
    err_files_append (err_file sample i);;
    when (submit_missing args)
         (os_system ("condor_submit " +:+ jdl_file sample i)).

(** Lines 140-156: the body of the final loop.  [outs_parquet] is
    read only behind the test [args.processor != "trigger"]. *)
Definition check_body (sample : string) (outs_pickles outs_parquet : list Z)
    (i : Z) : M unit :=
  if negb (Py.elem i outs_pickles)
     || (not_trigger && negb (Py.elem i outs_parquet))
  then
    if is_running sample i then
      print ("Job #" +:+ Py.str i +:+ " for sample " +:+ sample
               +:+ " is running.")
    else
      when (negb (Py.elem i outs_pickles))
           (print_red ("Missing output pickle #" +:+ Py.str i
                         +:+ " for sample " +:+ sample));;
      when (not_trigger && negb (Py.elem i outs_parquet))
           (print_red ("Missing output parquet #" +:+ Py.str i
                         +:+ " for sample " +:+ sample));;
      missing_files_append (jdl_file sample i);;
      err_files_append (err_file sample i);;
      when (submit_missing args)
           (os_system ("condor_submit " +:+ jdl_file sample i))
  else mret tt.

(** Lines 128-156, reached with [outs_parquet] bound when the
    processor is not ["trigger"], and unbound (and unread) otherwise,
    for which the empty list stands. *)
Definition check_pickles (sample : string) (outs_parquet : list Z)
  : M unit :=
  if negb (path_exists fs (pickles_dir sample)) then
    print_red ("No pickles directory for " +:+ sample +:+ "!")
  else
    outs_pickles ← out_indices (pickles_dir sample);
    when (negb not_trigger)
         (print ("Out pickles: " +:+ Py.str_list outs_pickles));;
    n ← jdl_dict_get sample;
    indices ← range_ n;
    for_ indices (check_body sample outs_pickles outs_parquet).

(** The body of [for sample in samples]. *)
Definition check_sample (sample : string) : M unit :=
  print ("Checking " +:+ sample);;
  if not_trigger then
    if negb (path_exists fs (parquet_dir sample)) then
      print_red ("No parquet directory for " +:+ sample +:+ "!");;
      match jdl_dict !! sample with
      | None => mret tt
      | Some n => indices ← range_ n; for_ indices (no_parquet_body sample)
      end
    else
      outs_parquet ← out_indices (parquet_dir sample);
      print ("Out parquets: " +:+ Py.str_list outs_parquet);;
      check_pickles sample outs_parquet
  else check_pickles sample [].

(** Lines 94-156: the reconciliation loop. *)
Definition reconcile (samples : list string) : M unit :=
  for_ samples check_sample.

(** Lines 159-165: the final listing. *)
Definition print_summary : M unit :=
  λ σ,
    (print (Py.str (Z.of_nat (length (missing_files σ)))
              +:+ " files to re-run:");;
     for_ (missing_files σ) print;;
     print (newline +:+ "Error files:");;
     for_ (err_files σ) print) σ.

End Script.

(** The whole script.  [condor_q_lines] is the content of
    [running_jobs.txt] after the [condor_q] command. *)
Definition main (int : string → option Z) (args : arguments)
    (fs : filesystem) (condor_q_lines : list string) : M unit :=
  samples ← listdir fs (xrddir args);
  names ← listdir fs (condor_dir args);
  let jdls := filter (λ jdl, Py.endswith jdl ".jdl") names in
  jdl_dict ← build_jdl_dict int args samples jdls;
  running_jobs ← read_running_jobs args condor_q_lines;
  reconcile int args fs jdl_dict running_jobs samples;;
  print_summary.

(** *** Notions used to state the properties *)

(** The state [σ] after the further appends and calls recorded in [δ]. *)
Definition extend (σ δ : state) : state :=
  State (missing_files σ ++ missing_files δ)
        (err_files σ ++ err_files δ)
        (trace σ ++ trace δ).

(** A computation that only appends to the state it is given: its result
    and what it appends are those of its run from the empty state. *)
Definition appending {A} (m : M A) : Prop :=
  ∀ σ, m σ = ((m initial).1, extend σ (m initial).2).

Section Views.

Variable int : string → option Z.
Variable args : arguments.
Variable fs : filesystem.
Variable jdl_dict : gmap string Np.scalar.
Variable running_jobs : list string.

(** The indices found in the listing of [dir], when [dir] can be listed
    and every name in it is read by [int]. *)
Definition produced (dir : string) : option (list Z) :=
  match out_indices int fs dir initial with
  | (inr outs, _) => Some outs
  | (inl _, _) => None
  end.

(** An output directory that cannot be read holds no output. *)
Definition produced_primary (sample : string) : list Z :=
  default [] (produced (pickles_dir args sample)).

Definition produced_secondary (sample : string) : list Z :=
  default [] (produced (parquet_dir args sample)).

Definition secondary_required : Prop := processor args ≠ "trigger".

(** The three categories of a job index. *)
Definition complete (sample : string) (i : Z) : Prop :=
  i ∈ produced_primary sample
  ∧ (secondary_required → i ∈ produced_secondary sample).

Definition running (sample : string) (i : Z) : Prop :=
  job_name args sample i ∈ running_jobs.

Definition in_flight (sample : string) (i : Z) : Prop :=
  running sample i ∧ ¬ complete sample i.

Definition reported (σ : state) (sample : string) (i : Z) : Prop :=
  jdl_file args sample i ∈ missing_files σ.

(** The sample is left aside by the guard of line 128: its pickles
    directory does not exist, and the parquet branch of lines 103-121
    was not taken. *)
Definition skipped (sample : string) : Prop :=
  path_exists fs (pickles_dir args sample) = false
  ∧ (secondary_required → path_exists fs (parquet_dir args sample) = true).

(** The indices the final loop of a sample reports, given the two
    parsed listings. *)
Definition rerun (sample : string) (outs_pickles outs_parquet : list Z)
    (i : Z) : bool :=
  (negb (Py.elem i outs_pickles)
   || (not_trigger args && negb (Py.elem i outs_parquet)))
  && negb (is_running args running_jobs sample i).

(** The indices reported while one sample is checked. *)
Definition sample_reports (sample : string) : list Z :=
  match jdl_dict !! sample with
  | None | Some Np.Float64 => []
  | Some (Np.Integer n) =>
      if not_trigger args then
        if path_exists fs (parquet_dir args sample) then
          match produced (parquet_dir args sample),
                produced (pickles_dir args sample) with
          | Some outs_parquet, Some outs_pickles =>
              filter (λ i, rerun sample outs_pickles outs_parquet i)
                     (Py.range n)
          | _, _ => []
          end
        else
          filter (λ i, negb (is_running args running_jobs sample i))
                 (Py.range n)
      else
        match produced (pickles_dir args sample) with
        | Some outs_pickles =>
            filter (λ i, rerun sample outs_pickles [] i) (Py.range n)
        | None => []
        end
  end.

(** The samples whose check is started: all of them, or those up to
    the one whose check raises. *)
Fixpoint visited (samples : list string) : list string :=
  match samples with
  | [] => []
  | sample :: rest =>
      match check_sample int args fs jdl_dict running_jobs sample initial with
      | (inr _, _) => sample :: visited rest
      | (inl _, _) => [ sample ]
      end
  end.

(** What the loop of lines 108-119 prints and runs for one index. *)
Definition no_parquet_events (sample : string) (i : Z) : list event :=
  if is_running args running_jobs sample i then
    [ Print ("Job #" +:+ Py.str i +:+ " for sample " +:+ sample
               +:+ " is running.") ]
  else
    Print (jdl_file args sample i)
    :: (if submit_missing args
        then [ System ("condor_submit " +:+ jdl_file args sample i) ]
        else []).

End Views.

(** Two listings hold the same indices: both unreadable, or both read
    with the same set of indices. *)
Definition same_indices (o1 o2 : option (list Z)) : Prop :=
  match o1, o2 with
  | Some l1, Some l2 => ∀ i : Z, i ∈ l1 ↔ i ∈ l2
  | None, None => True
  | _, _ => False
  end.

(** Two storage trees agree on an output directory up to the order and
    the repetition of the indices listed. *)
Definition same_outputs (int : string → option Z) (fs1 fs2 : filesystem)
    (dir : string) : Prop :=
  path_exists fs1 dir = path_exists fs2 dir
  ∧ same_indices (produced int fs1 dir) (produced int fs2 dir).

(** The greatest element of a non-empty list of indices. *)
Definition is_max (m : Z) (x : list Z) : Prop :=
  m ∈ x ∧ ∀ i, i ∈ x → i <= m.

(** The indices encoded in the directive names of one sample. *)
Definition encoded_indices (int : string → option Z) (args : arguments)
    (jdls : list string) (sample : string) (x : list Z) : Prop :=
  Forall2 (λ jdl i, int (jdl_index_text jdl) = Some i)
          (filter (λ jdl, jdl_matches args sample jdl) jdls) x.

(** A computation that leaves the two result lists as they are. *)
Definition silent {A} (m : M A) : Prop :=
  ∀ σ, missing_files (m σ).2 = missing_files σ
       ∧ err_files (m σ).2 = err_files σ.

(** The conditions under which the check of one sample ends without an
    exception, read off the tests of lines 101-139: a directory that is
    listed can be read, and a count given to [range] is there and is an
    integer. *)
Definition pickles_pass (int : string → option Z) (args : arguments)
    (fs : filesystem) (jdl_dict : gmap string Np.scalar) (sample : string)
  : Prop :=
  path_exists fs (pickles_dir args sample) = false
  ∨ (is_Some (produced int fs (pickles_dir args sample))
     ∧ ∃ n, jdl_dict !! sample = Some (Np.Integer n)).

Definition sample_pass (int : string → option Z) (args : arguments)
    (fs : filesystem) (jdl_dict : gmap string Np.scalar) (sample : string)
  : Prop :=
  if not_trigger args then
    (path_exists fs (parquet_dir args sample) = false
     ∧ jdl_dict !! sample ≠ Some Np.Float64)
    ∨ (is_Some (produced int fs (parquet_dir args sample))
       ∧ pickles_pass int args fs jdl_dict sample)
  else pickles_pass int args fs jdl_dict sample.

(** The two result lists name, position by position, the directive and
    the log of the same jobs. *)
Definition paired (args : arguments) (σ : state) : Prop :=
  ∃ jobs : list (string * Z),
    missing_files σ = (λ j, jdl_file args j.1 j.2) <$> jobs
    ∧ err_files σ = (λ j, err_file args j.1 j.2) <$> jobs.

Definition keeps_paired {A} (args : arguments) (m : M A) : Prop :=
  ∀ σ, paired args σ → paired args (m σ).2.

End CheckJobs.

Import CheckJobs.

(** ** A small batch, used to run the script *)

Module Batch.

(** A storage tree given by the list of its paths. *)
Definition tree (nodes : list (string * node)) : filesystem :=
  λ p, snd <$> List.find (λ entry, String.eqb entry.1 p) nodes.

Definition skim : arguments :=
  Args "skimmer" bbbb lpc "24Nov" "2018" "rkansal" false true.

Definition trig : arguments :=
  Args "trigger" bbbb lpc "24Nov" "2018" "rkansal" false true.

(** [ttbar] has its three parquet files and two of its pickles, [qcd]
    has no parquet directory, [wjets] has both directories and no
    submission directive, [zjets] has a parquet directory only. *)
Definition storage (args : arguments) : filesystem :=
  tree [ (xrddir args, Dir ["ttbar"; "qcd"; "wjets"; "zjets"]);
         (condor_dir args,
          Dir ["2018_ttbar_0.jdl"; "2018_ttbar_1.jdl"; "2018_ttbar_2.jdl";
               "2018_qcd_0.jdl"; "2018_qcd_1.jdl";
               "2018_zjets_0.jdl"; "2018_zjets_1.jdl";
               "2018_ttbar_0.sh"; "logs"]);
         (parquet_dir args "ttbar",
          Dir ["out_0.parquet"; "out_1.parquet"; "out_2.parquet"]);
         (pickles_dir args "ttbar", Dir ["out_0.pkl"; "out_1.pkl"]);
         (pickles_dir args "qcd", Dir ["out_0.pkl"]);
         (parquet_dir args "wjets", Dir ["out_0.parquet"]);
         (pickles_dir args "wjets", Dir ["out_0.pkl"]);
         (parquet_dir args "zjets", Dir ["out_0.parquet"; "out_1.parquet"]) ].

(** The outputs of [ttbar] alone, where the pickle of index 1 is listed
    under two names and the parquet files come in another order, one of
    them under two names. *)
Definition storage_dup (args : arguments) : filesystem :=
  tree [ (parquet_dir args "ttbar",
          Dir ["out_2.parquet"; "out_0.parquet"; "out_1.parquet";
               "copy_1.parquet"]);
         (pickles_dir args "ttbar",
          Dir ["out_0.pkl"; "out_1.pkl"; "retry_1.pkl"]) ].

(** The outputs of [ttbar] alone, without a parquet directory. *)
Definition storage_no_parquet (args : arguments) : filesystem :=
  tree [ (pickles_dir args "ttbar", Dir ["out_0.pkl"; "out_1.pkl"]) ].

Definition counts : gmap string Np.scalar :=
  <["ttbar" := Np.Integer 3]>
    (<["qcd" := Np.Integer 2]> (<["zjets" := Np.Integer 2]> ∅)).

Definition running_jobs : list string := [ "2018_ttbar_2"; "2018_qcd_0" ].

End Batch.

(** ** Further notions, for the parts of the script around the loop *)

(** The file name of the directive of a job,
    [f"{year}_{sample}_{i}.jdl"], as [submit] writes it under
    [condor_dir] and as [jdl_file] names it. *)
Definition jdl_name (args : arguments) (sample : string) (i : Z) : string :=
  job_name args sample i +:+ ".jdl".

(** The directive names of a batch that submits, for each sample [s]
    with [n] jobs, the jobs [0] to [n - 1]. *)
Definition directives (args : arguments) (batch : list (string * Z))
  : list string :=
  flat_map (λ b, jdl_name args b.1 <$> Py.range b.2) batch.

(** An output file name [f"{prefix}_{i}.{ext}"]. *)
Definition out_name (prefix ext : string) (i : Z) : string :=
  prefix +:+ "_" +:+ Py.str i +:+ "." +:+ ext.

(** The commands given to [os.system] in a trace, in order. *)
Definition commands (t : list event) : list string :=
  omap (λ e, match e with System c => Some c | _ => None end) t.

(** The lines given to [print] and [print_red] in a trace, in order. *)
Definition printed (t : list event) : list string :=
  omap (λ e, match e with
             | Print line | PrintRed line => Some line
             | System _ => None
             end) t.

(** The resubmission commands of a list of directive paths. *)
Definition resubmissions (args : arguments) (files : list string)
  : list string :=
  if submit_missing args
  then (λ f, "condor_submit " +:+ f) <$> files
  else [].

(** From [σ] to [σ'], directives were added to [missing_files] and the
    commands run are their resubmissions. *)
Definition resubmits (args : arguments) (σ σ' : state) : Prop :=
  ∃ new,
    missing_files σ' = (missing_files σ ++ new)%list
    ∧ commands (trace σ') = (commands (trace σ) ++ resubmissions args new)%list.

Definition mirrors {A} (args : arguments) (m : M A) : Prop :=
  ∀ σ, resubmits args σ (m σ).2.

(** What lines 159-165 print for the two result lists. *)
Definition summary_lines (missing err : list string) : list string :=
  ((Py.str (Z.of_nat (length missing)) +:+ " files to re-run:") :: missing)
    ++ ((newline +:+ "Error files:") :: err).

(** The exceptions the check of the samples can end with. *)
Definition loop_exception (int : string → option Z) (args : arguments)
    (fs : filesystem) (jdl_dict : gmap string Np.scalar)
    (samples : list string) (e : exn) : Prop :=
  match e with
  | KeyError k => k ∈ samples ∧ jdl_dict !! k = None
  | TypeError message =>
      message = float64_not_integer
      ∧ ∃ k, k ∈ samples ∧ jdl_dict !! k = Some Np.Float64
  | ValueError text =>
      ∃ sample dir out entries,
        sample ∈ samples
        ∧ (dir = parquet_dir args sample ∨ dir = pickles_dir args sample)
        ∧ fs dir = Some (Dir entries)
        ∧ out ∈ entries
        ∧ text = out_index_text out
        ∧ int text = None
  | NotADirectoryError p =>
      ∃ sample,
        sample ∈ samples
        ∧ (p = parquet_dir args sample ∨ p = pickles_dir args sample)
        ∧ fs p = Some File
  | FileNotFoundError _ => False
  end.

(** ** A second batch, on which the script ends normally *)

Module Tidy.

Definition submitted : list (string * Z) :=
  [ ("QCD_HT", 3); ("ttbar", 2); ("empty", 0) ].

(** [QCD_HT] has all its outputs but the pickle of job 1; [ttbar] has
    no parquet directory; [empty] has no directive. *)
Definition storage (args : arguments) : filesystem :=
  Batch.tree
    [ (xrddir args, Dir ["QCD_HT"; "ttbar"; "empty"]);
      (condor_dir args,
       Dir (directives args submitted ++ ["2018_QCD_HT_0.sh"; "logs"]));
      (parquet_dir args "QCD_HT", Dir (out_name "out" "parquet" <$> [0; 1; 2]));
      (pickles_dir args "QCD_HT", Dir (out_name "out" "pkl" <$> [2; 0]));
      (pickles_dir args "ttbar", Dir []) ].


Definition resubmit : arguments :=
  Args "skimmer" bbbb lpc "24Nov" "2018" "rkansal" true true.

(** A storage tree with one sample, whose two directives encode the
    indices [0] and [2^63]. *)
Definition beyond_int64 (args : arguments) : filesystem :=
  Batch.tree
    [ (xrddir args, Dir ["s"]);
      (condor_dir args,
       Dir ["2018_s_0.jdl"; "2018_s_9223372036854775808.jdl"]) ].

End Tidy.

(** ** The background keys of [boostedhh/plotting.py] *)

Module Plotting.

Section CombineHbb.

(** The histograms are not looked into.  [utils.combine_hbb_bgs] and
    [hh_vars.hbb_bg_keys] are defined outside the two files at hand and
    are taken as given. *)
Variable Hist : Type.
Variable combine_hbb_bgs : Hist → Hist.
Variable hbb_bg_keys : list string.

(** [_combine_hbb_bgs(hists, bg_keys)], lines 155-169. *)
Definition _combine_hbb_bgs (hists : Hist) (bg_keys : list string)
  : Hist * list string :=
  if decide (size (list_to_set bg_keys ∩ list_to_set hbb_bg_keys
                   : gset string) = 0%nat)
  then (hists, bg_keys)
  else
    let h := combine_hbb_bgs hists in
    let bg_keys := filter (λ key, key ∉ hbb_bg_keys) bg_keys in
    let bg_keys :=
      if decide ("Hbb" ∈ bg_keys) then bg_keys else (bg_keys ++ ["Hbb"])%list in
    (h, bg_keys).

End CombineHbb.

(** Some Higgs backgrounds, to run the function. *)
Definition some_hbb_keys : list string := [ "ggFHbb"; "VBFHbb"; "ZHbb" ].

End Plotting.

(** The characters of a string. *)
Definition chars : string → list ascii := list_ascii_of_string.

(** * Properties *)

Local Open Scope list_scope.

(** ** The monad *)

Lemma extend_initial_r σ : extend σ initial = σ.
Proof. destruct σ; unfold extend; simpl. by rewrite !app_nil_r. Qed.

Lemma extend_initial_l δ : extend initial δ = δ.
Proof. by destruct δ. Qed.

Lemma extend_assoc σ δ1 δ2 :
  extend (extend σ δ1) δ2 = extend σ (extend δ1 δ2).
Proof. unfold extend; simpl. by rewrite !app_assoc. Qed.

Lemma appending_ret {A} (a : A) : appending (mret a).
Proof. intros σ. unfold mret, M_ret; simpl. by rewrite extend_initial_r. Qed.

Lemma appending_raise {A} (e : exn) : appending (@raise A e).
Proof. intros σ. unfold raise; simpl. by rewrite extend_initial_r. Qed.

Lemma appending_emit e : appending (emit e).
Proof. intros σ. unfold emit, extend; simpl. by rewrite !app_nil_r. Qed.

Lemma appending_missing_files_append f : appending (missing_files_append f).
Proof.
  intros σ. unfold missing_files_append, extend; simpl. by rewrite !app_nil_r.
Qed.

Lemma appending_err_files_append f : appending (err_files_append f).
Proof.
  intros σ. unfold err_files_append, extend; simpl. by rewrite !app_nil_r.
Qed.

Lemma appending_bind {A B} (m : M A) (k : A → M B) :
  appending m → (∀ a, appending (k a)) → appending (m ≫= k).
Proof.
  intros Hm Hk σ. unfold mbind, M_bind.
  rewrite (Hm σ). destruct (m initial) as [[e|a] δ]; simpl; [done|].
  rewrite (Hk a (extend σ δ)), (Hk a δ); simpl.
  by rewrite extend_assoc.
Qed.

Lemma appending_when b (m : M unit) : appending m → appending (when b m).
Proof. destruct b; simpl; auto using appending_ret. Qed.

Lemma appending_for {A} (l : list A) (body : A → M unit) :
  (∀ x, appending (body x)) → appending (for_ l body).
Proof.
  intros Hbody. induction l as [|x l IH]; simpl.
  - apply appending_ret.
  - apply appending_bind; auto.
Qed.

Lemma appending_comprehension {A B} (f : A → M B) (l : list A) :
  (∀ x, appending (f x)) → appending (comprehension f l).
Proof.
  intros Hf. induction l as [|x l IH]; simpl.
  - apply appending_ret.
  - apply appending_bind; [done|]. intros y.
    apply appending_bind; [done|]. intros ys. apply appending_ret.
Qed.

Lemma appending_listdir fs p : appending (listdir fs p).
Proof.
  unfold listdir. destruct (fs p) as [[|entries]|];
    auto using appending_ret, appending_raise.
Qed.

Lemma appending_py_int int s : appending (py_int int s).
Proof.
  unfold py_int. destruct (int s); auto using appending_ret, appending_raise.
Qed.

Lemma appending_range_ n : appending (range_ n).
Proof. destruct n; [apply appending_ret|apply appending_raise]. Qed.

Create HintDb appending.

#[local] Hint Resolve appending_ret appending_raise appending_emit
  appending_missing_files_append appending_err_files_append
  appending_when appending_for appending_comprehension
  appending_listdir appending_py_int appending_range_ : appending.

Ltac appending :=
  cbv beta;
  lazymatch goal with
  | |- ∀ _, _ => intros ?; appending
  | |- appending (_ ≫= _) =>
      apply appending_bind; [appending | intros ?; appending]
  | |- appending (for_ _ _) => apply appending_for; intros ?; appending
  | |- appending (comprehension _ _) =>
      apply appending_comprehension; intros ?; appending
  | |- appending (when _ _) => apply appending_when; appending
  | |- appending (if ?b then _ else _) => destruct b; appending
  | |- appending (match ?o with _ => _ end) => destruct o; appending
  | |- _ => first [ assumption | solve [ eauto with appending ] ]
  end.

(** ** Strings and job names *)

Section Strings.

Lemma chars_cons c s : chars (String c s) = c :: chars s.
Proof. done. Qed.

Lemma chars_app (a b : string) : chars (a +:+ b) = chars a ++ chars b.
Proof. induction a as [|c a IH]; simpl; [done|]. by rewrite IH. Qed.

Lemma chars_inj (a b : string) : chars a = chars b → a = b.
Proof.
  unfold chars. intros H. rewrite <-(string_of_list_ascii_of_string a),
    <-(string_of_list_ascii_of_string b). by rewrite H.
Qed.

Lemma string_app_inv_tail (a b c : string) : a +:+ c = b +:+ c → a = b.
Proof.
  intros H. apply chars_inj. apply (f_equal chars) in H.
  rewrite !chars_app in H. by eapply app_inv_tail.
Qed.

Lemma string_app_inv_head (a b c : string) : a +:+ b = a +:+ c → b = c.
Proof. apply String.app_inj. Qed.

(** A field that holds no separator is found back after the last
    separator. *)
Lemma last_field_unique (sep : ascii) (p q a b : list ascii) :
  sep ∉ p → sep ∉ q → a ++ sep :: p = b ++ sep :: q → a = b ∧ p = q.
Proof.
  intros Hp Hq H.
  assert (reverse p ++ sep :: reverse a = reverse q ++ sep :: reverse b) as H'.
  { apply (f_equal reverse) in H.
    by rewrite !reverse_app, !reverse_cons, <-!app_assoc in H. }
  assert (∀ p q a b : list ascii, sep ∉ p → sep ∉ q →
            p ++ sep :: a = q ++ sep :: b → p = q ∧ a = b) as aux.
  { clear. intros p. induction p as [|c p IH]; intros [|d q] a b Hp Hq H;
      simplify_eq/=.
    - done.
    - exfalso. apply Hq. left.
    - exfalso. apply Hp. left.
    - destruct (IH q a b) as [-> ->]; [| |done..].
      + intros ?. apply Hp. by right.
      + intros ?. apply Hq. by right. }
  destruct (aux (reverse p) (reverse q) (reverse a) (reverse b)) as [E1 E2].
  - by rewrite elem_of_reverse.
  - by rewrite elem_of_reverse.
  - done.
  - split; by apply (inj reverse).
Qed.

Lemma pretty_N_go_no_underscore (x : N) (s : string) :
  "_"%char ∉ chars s → "_"%char ∉ chars (pretty_N_go x s).
Proof.
  revert s. induction (N.lt_wf_0 x) as [x _ IH]; intros s Hs.
  assert (x = 0 ∨ 0 < x)%N as [->|?] by lia.
  - by rewrite pretty_N_go_0.
  - rewrite pretty_N_go_step by done. apply IH.
    { by apply N.div_lt. }
    simpl. rewrite not_elem_of_cons. split; [|done].
    unfold pretty_N_char. by repeat case_match.
Qed.

Lemma pretty_N_no_underscore (x : N) : "_"%char ∉ chars (pretty x).
Proof.
  unfold pretty, pretty_N. case_decide.
  - simpl. rewrite not_elem_of_cons. split; [done|]. apply not_elem_of_nil.
  - apply pretty_N_go_no_underscore. apply not_elem_of_nil.
Qed.

Lemma str_no_underscore (i : Z) : "_"%char ∉ chars (Py.str i).
Proof.
  unfold Py.str, pretty, pretty_Z. destruct i as [|x|x].
  - simpl. rewrite not_elem_of_cons. split; [done|]. apply not_elem_of_nil.
  - apply pretty_N_no_underscore.
  - rewrite chars_app. simpl. rewrite not_elem_of_cons. split; [done|].
    apply pretty_N_no_underscore.
Qed.

Lemma str_inj (i j : Z) : Py.str i = Py.str j → i = j.
Proof. apply pretty_Z_inj. Qed.

Variable args : arguments.

Lemma job_name_inj (s1 s2 : string) (i1 i2 : Z) :
  job_name args s1 i1 = job_name args s2 i2 → s1 = s2 ∧ i1 = i2.
Proof.
  unfold job_name. intros H.
  apply string_app_inv_head, string_app_inv_head in H.
  apply (f_equal chars) in H. rewrite !chars_app in H. simpl in H.
  apply last_field_unique in H as [E1 E2]; auto using str_no_underscore.
  split; [by apply chars_inj|]. by apply str_inj, chars_inj.
Qed.

Lemma jdl_file_job_name (s1 s2 : string) (i1 i2 : Z) :
  jdl_file args s1 i1 = jdl_file args s2 i2 →
  job_name args s1 i1 = job_name args s2 i2.
Proof.
  unfold jdl_file. intros H. apply string_app_inv_head in H.
  by apply string_app_inv_tail in H.
Qed.

Lemma jdl_file_inj (s1 s2 : string) (i1 i2 : Z) :
  jdl_file args s1 i1 = jdl_file args s2 i2 → s1 = s2 ∧ i1 = i2.
Proof. intros H. by apply job_name_inj, jdl_file_job_name. Qed.

End Strings.


(** ** The check of one sample *)

Section Sample.

Variable int : string → option Z.
Variable args : arguments.
Variable fs : filesystem.
Variable jdl_dict : gmap string Np.scalar.
Variable running_jobs : list string.

Local Abbreviation check_sample := (check_sample int args fs jdl_dict running_jobs).
Local Abbreviation check_pickles := (check_pickles int args fs jdl_dict running_jobs).
Local Abbreviation check_body := (check_body args running_jobs).
Local Abbreviation no_parquet_body := (no_parquet_body args running_jobs).
Local Abbreviation is_running := (is_running args running_jobs).
Local Abbreviation rerun := (rerun args running_jobs).
Local Abbreviation sample_reports := (sample_reports int args fs jdl_dict running_jobs).
Local Abbreviation produced := (produced int fs).

Ltac step := unfold range_, mbind, M_bind, mret, M_ret, raise, print, print_red,
  os_system, emit, missing_files_append, err_files_append, when; simpl.

Lemma filter_all {A} (P : A → bool) (l : list A) :
  (∀ x, x ∈ l → P x = true) → filter (λ x, P x) l = l.
Proof.
  induction l as [|x l IH]; intros H; [done|].
  rewrite filter_cons, (H x) by left. simpl. f_equal.
  apply IH. intros y Hy. apply H. by right.
Qed.

Lemma filter_ext_in {A} (P Q : A → bool) (l : list A) :
  (∀ x, x ∈ l → P x = Q x) →
  filter (λ x, P x) l = filter (λ x, Q x) l.
Proof.
  induction l as [|x l IH]; intros H; [done|].
  rewrite !filter_cons, (H x) by left.
  rewrite IH; [done|]. intros y Hy. apply H. by right.
Qed.

Lemma py_int_run s σ :
  py_int int s σ
  = (match int s with Some z => inr z | None => inl (ValueError s) end, σ).
Proof. unfold py_int. by destruct (int s). Qed.

(** Reading and parsing a listing leaves the state as it is. *)
Lemma comprehension_py_int (f : string → string) (l : list string) σ :
  comprehension (λ out, py_int int (f out)) l σ
  = ((comprehension (λ out, py_int int (f out)) l initial).1, σ).
Proof.
  induction l as [|out l IH]; simpl; [done|].
  unfold mbind, M_bind. rewrite !py_int_run.
  destruct (int (f out)) as [z|]; simpl; [|done].
  rewrite IH.
  by destruct (comprehension (λ out0, py_int int (f out0)) l initial) as [[e|ys] δ].
Qed.

Lemma out_indices_state dir σ :
  out_indices int fs dir σ = ((out_indices int fs dir initial).1, σ).
Proof.
  unfold out_indices, listdir, mbind, M_bind.
  destruct (fs dir) as [[|names]|]; simpl; try done.
  apply comprehension_py_int.
Qed.

Lemma out_indices_Some dir outs σ :
  produced dir = Some outs → out_indices int fs dir σ = (inr outs, σ).
Proof.
  unfold CheckJobs.produced. rewrite (out_indices_state dir σ).
  destruct (out_indices int fs dir initial) as [[e|l] δ]; naive_solver.
Qed.

Lemma out_indices_None dir σ :
  produced dir = None → ∃ e, out_indices int fs dir σ = (inl e, σ).
Proof.
  unfold CheckJobs.produced. rewrite (out_indices_state dir σ).
  destruct (out_indices int fs dir initial) as [[e|l] δ]; naive_solver.
Qed.

Lemma produced_absent dir : path_exists fs dir = false → produced dir = None.
Proof.
  unfold path_exists, CheckJobs.produced, out_indices, listdir, mbind, M_bind.
  by destruct (fs dir) as [[|names]|].
Qed.

Lemma flat_map_filter {A B} (P : A → bool) (f : A → B) (l : list A) :
  flat_map (λ x, if P x then [f x] else []) l = f <$> filter (λ x, P x) l.
Proof.
  induction l as [|x l IH]; simpl; [done|].
  rewrite filter_cons. destruct (P x); simpl; by rewrite IH.
Qed.

Lemma no_parquet_body_run sample (i : Z) σ :
  no_parquet_body sample i σ
  = (inr tt,
     extend σ
       (State (if is_running sample i then [] else [jdl_file args sample i])
              (if is_running sample i then [] else [err_file args sample i])
              (no_parquet_events args running_jobs sample i))).
Proof.
  unfold CheckJobs.no_parquet_body, no_parquet_events, extend.
  destruct (is_running sample i); step; rewrite ?app_nil_r; [done|].
  destruct (submit_missing args); step; by rewrite <-?app_assoc.
Qed.

Lemma check_body_run sample outs_pickles outs_parquet (i : Z) σ :
  ∃ t,
    check_body sample outs_pickles outs_parquet i σ
    = (inr tt,
       extend σ
         (State (if rerun sample outs_pickles outs_parquet i
                 then [jdl_file args sample i] else [])
                (if rerun sample outs_pickles outs_parquet i
                 then [err_file args sample i] else [])
                t)).
Proof.
  unfold CheckJobs.check_body, CheckJobs.rerun, extend.
  destruct (negb (Py.elem i outs_pickles));
    destruct (not_trigger args && negb (Py.elem i outs_parquet));
    destruct (is_running sample i);
    destruct (submit_missing args); step;
    rewrite ?app_nil_r, <-?app_assoc; simpl.
  all: solve [ eexists; reflexivity
             | exists []; destruct σ; simpl; by rewrite app_nil_r ].
Qed.

Lemma filter_fmap_if {A B} (P : A → bool) (f : A → B) (x : A) (l : list A) :
  f <$> filter (λ y, P y) (x :: l)
  = (if P x then [f x] else []) ++ (f <$> filter (λ y, P y) l).
Proof. rewrite filter_cons. by destruct (P x). Qed.

(** The loop of lines 108-119. *)
Lemma no_parquet_loop sample (l : list Z) σ :
  for_ l (no_parquet_body sample) σ
  = (inr tt,
     extend σ
       (State (jdl_file args sample
                 <$> filter (λ i, negb (is_running sample i)) l)
              (err_file args sample
                 <$> filter (λ i, negb (is_running sample i)) l)
              (flat_map (no_parquet_events args running_jobs sample) l))).
Proof.
  revert σ. induction l as [|i l IH]; intros σ.
  - simpl. by rewrite <-(extend_initial_r σ) at 1.
  - cbn [for_ flat_map]. unfold mbind, M_bind.
    rewrite no_parquet_body_run, IH, extend_assoc, !filter_fmap_if.
    unfold extend at 2; simpl. by destruct (is_running sample i).
Qed.

(** The loop of lines 139-156. *)
Lemma check_loop sample outs_pickles outs_parquet (l : list Z) σ :
  ∃ t,
    for_ l (check_body sample outs_pickles outs_parquet) σ
    = (inr tt,
       extend σ
         (State (jdl_file args sample
                   <$> filter (λ i, rerun sample outs_pickles outs_parquet i) l)
                (err_file args sample
                   <$> filter (λ i, rerun sample outs_pickles outs_parquet i) l)
                t)).
Proof.
  revert σ. induction l as [|i l IH]; intros σ.
  - exists []. simpl. by rewrite <-(extend_initial_r σ) at 1.
  - cbn [for_]. unfold mbind, M_bind.
    destruct (check_body_run sample outs_pickles outs_parquet i σ) as [t1 ->].
    edestruct IH as [t2 ->]. rewrite extend_assoc, !filter_fmap_if.
    unfold extend at 2; simpl. eexists; reflexivity.
Qed.

Lemma produced_exists dir outs :
  produced dir = Some outs → path_exists fs dir = true.
Proof.
  intros H. destruct (path_exists fs dir) eqn:E; [done|].
  apply produced_absent in E. congruence.
Qed.

Lemma extend_trace σ t1 t2 :
  extend (extend σ (State [] [] t1)) (State [] [] t2)
  = extend σ (State [] [] (t1 ++ t2)).
Proof. by rewrite extend_assoc. Qed.

Lemma state_trace_only σ t :
  State (missing_files σ) (err_files σ) (trace σ ++ t)
  = extend σ (State [] [] t).
Proof. unfold extend; simpl. by rewrite !app_nil_r. Qed.

(** *** Lines 128-156 *)

Lemma check_pickles_absent sample outs_parquet σ :
  path_exists fs (pickles_dir args sample) = false →
  check_pickles sample outs_parquet σ
  = (inr tt,
     extend σ (State [] []
       [PrintRed ("No pickles directory for " +:+ sample +:+ "!")])).
Proof.
  intros H. unfold CheckJobs.check_pickles. rewrite H. simpl.
  unfold print_red, emit, extend; simpl. by rewrite !app_nil_r.
Qed.

Lemma check_pickles_unreadable sample outs_parquet σ :
  path_exists fs (pickles_dir args sample) = true →
  produced (pickles_dir args sample) = None →
  ∃ e, check_pickles sample outs_parquet σ = (inl e, σ).
Proof.
  intros H Hp. unfold CheckJobs.check_pickles. rewrite H. simpl.
  unfold mbind, M_bind.
  destruct (out_indices_None _ σ Hp) as [e ->]. by exists e.
Qed.

Lemma check_pickles_no_count sample outs_parquet outs_pickles σ :
  produced (pickles_dir args sample) = Some outs_pickles →
  jdl_dict !! sample = None →
  ∃ t, check_pickles sample outs_parquet σ
       = (inl (KeyError sample), extend σ (State [] [] t)).
Proof.
  intros Hp Hn. unfold CheckJobs.check_pickles.
  rewrite (produced_exists _ _ Hp). simpl. unfold mbind, M_bind.
  rewrite (out_indices_Some _ _ σ Hp). unfold jdl_dict_get. rewrite Hn.
  destruct (negb (not_trigger args)); step.
  - rewrite state_trace_only. by eexists.
  - exists []. by rewrite extend_initial_r.
Qed.

Lemma check_pickles_float sample outs_parquet outs_pickles σ :
  produced (pickles_dir args sample) = Some outs_pickles →
  jdl_dict !! sample = Some Np.Float64 →
  ∃ t, check_pickles sample outs_parquet σ
       = (inl (TypeError float64_not_integer), extend σ (State [] [] t)).
Proof.
  intros Hp Hn. unfold CheckJobs.check_pickles.
  rewrite (produced_exists _ _ Hp). simpl. unfold mbind, M_bind.
  rewrite (out_indices_Some _ _ σ Hp). unfold jdl_dict_get. rewrite Hn.
  destruct (negb (not_trigger args)); step.
  - rewrite state_trace_only. by eexists.
  - exists []. by rewrite extend_initial_r.
Qed.

Lemma check_pickles_checked sample outs_parquet outs_pickles n σ :
  produced (pickles_dir args sample) = Some outs_pickles →
  jdl_dict !! sample = Some (Np.Integer n) →
  ∃ t, check_pickles sample outs_parquet σ
       = (inr tt,
          extend σ
            (State (jdl_file args sample
                      <$> filter (λ i, rerun sample outs_pickles outs_parquet i)
                                 (Py.range n))
                   (err_file args sample
                      <$> filter (λ i, rerun sample outs_pickles outs_parquet i)
                                 (Py.range n))
                   t)).
Proof.
  intros Hp Hn. unfold CheckJobs.check_pickles.
  rewrite (produced_exists _ _ Hp). simpl. unfold mbind, M_bind.
  rewrite (out_indices_Some _ _ σ Hp). unfold jdl_dict_get. rewrite Hn.
  destruct (negb (not_trigger args)); step.
  - match goal with
    | |- context [for_ _ _ ?σ'] =>
        destruct (check_loop sample outs_pickles outs_parquet (Py.range n) σ')
          as [t ->]
    end.
    eexists. unfold extend; simpl. rewrite <-!app_assoc. reflexivity.
  - apply check_loop.
Qed.

(** *** Lines 99-126 *)

Lemma check_sample_no_parquet_no_count sample σ :
  not_trigger args = true →
  path_exists fs (parquet_dir args sample) = false →
  jdl_dict !! sample = None →
  check_sample sample σ
  = (inr tt,
     extend σ (State [] []
       [Print ("Checking " +:+ sample);
        PrintRed ("No parquet directory for " +:+ sample +:+ "!")])).
Proof.
  intros Ht Hq Hn. unfold CheckJobs.check_sample. rewrite Ht, Hq, Hn. step.
  unfold extend; simpl. by rewrite !app_nil_r, <-app_assoc.
Qed.

Lemma check_sample_no_parquet_float sample σ :
  not_trigger args = true →
  path_exists fs (parquet_dir args sample) = false →
  jdl_dict !! sample = Some Np.Float64 →
  check_sample sample σ
  = (inl (TypeError float64_not_integer),
     extend σ (State [] []
       [Print ("Checking " +:+ sample);
        PrintRed ("No parquet directory for " +:+ sample +:+ "!")])).
Proof.
  intros Ht Hq Hn. unfold CheckJobs.check_sample. rewrite Ht, Hq, Hn. step.
  unfold extend; simpl. by rewrite !app_nil_r, <-app_assoc.
Qed.

Lemma check_sample_no_parquet sample n σ :
  not_trigger args = true →
  path_exists fs (parquet_dir args sample) = false →
  jdl_dict !! sample = Some (Np.Integer n) →
  check_sample sample σ
  = (inr tt,
     extend σ
       (State (jdl_file args sample
                 <$> filter (λ i, negb (is_running sample i)) (Py.range n))
              (err_file args sample
                 <$> filter (λ i, negb (is_running sample i)) (Py.range n))
              ([Print ("Checking " +:+ sample);
                PrintRed ("No parquet directory for " +:+ sample +:+ "!")]
               ++ flat_map (no_parquet_events args running_jobs sample)
                           (Py.range n)))).
Proof.
  intros Ht Hq Hn. unfold CheckJobs.check_sample. rewrite Ht, Hq, Hn. step.
  rewrite no_parquet_loop. unfold extend; simpl. by rewrite <-!app_assoc.
Qed.

Lemma check_sample_parquet_unreadable sample σ :
  not_trigger args = true →
  path_exists fs (parquet_dir args sample) = true →
  produced (parquet_dir args sample) = None →
  ∃ e t, check_sample sample σ = (inl e, extend σ (State [] [] t)).
Proof.
  intros Ht Hq Hp. unfold CheckJobs.check_sample. rewrite Ht, Hq. step.
  match goal with
  | |- context [out_indices _ _ _ ?σ'] =>
      destruct (out_indices_None _ σ' Hp) as [e ->]
  end.
  rewrite state_trace_only. by eexists _, _.
Qed.

Lemma check_sample_parquet sample outs_parquet σ :
  not_trigger args = true →
  produced (parquet_dir args sample) = Some outs_parquet →
  check_sample sample σ
  = check_pickles sample outs_parquet
      (extend σ (State [] []
         [Print ("Checking " +:+ sample);
          Print ("Out parquets: " +:+ Py.str_list outs_parquet)])).
Proof.
  intros Ht Hp. unfold CheckJobs.check_sample.
  rewrite Ht, (produced_exists _ _ Hp). step.
  rewrite (out_indices_Some _ _ _ Hp). f_equal.
  unfold extend; simpl. by rewrite !app_nil_r, <-app_assoc.
Qed.

Lemma check_sample_trigger sample σ :
  not_trigger args = false →
  check_sample sample σ
  = check_pickles sample []
      (extend σ (State [] [] [Print ("Checking " +:+ sample)])).
Proof.
  intros Ht. unfold CheckJobs.check_sample. rewrite Ht. step. f_equal.
  unfold extend; simpl. by rewrite !app_nil_r.
Qed.

(** What the check of one sample appends to the two result lists. *)
Lemma check_sample_reports sample σ :
  ∃ r t,
    check_sample sample σ
    = (r, extend σ (State (jdl_file args sample <$> sample_reports sample)
                          (err_file args sample <$> sample_reports sample)
                          t)).
Proof.
  unfold CheckJobs.sample_reports.
  destruct (not_trigger args) eqn:Ht.
  - destruct (path_exists fs (parquet_dir args sample)) eqn:Hq.
    + destruct (produced (parquet_dir args sample)) as [oq|] eqn:Hpq.
      * rewrite (check_sample_parquet _ _ σ Ht Hpq).
        destruct (produced (pickles_dir args sample)) as [op|] eqn:Hpp.
        -- destruct (jdl_dict !! sample) as [[n|]|] eqn:Hn.
           ++ edestruct (check_pickles_checked sample oq op n) as [t ->];
                [done..|].
              rewrite extend_assoc. unfold extend at 2; simpl.
              eexists _, _; reflexivity.
           ++ edestruct (check_pickles_float sample oq op) as [t ->];
                [done..|].
              rewrite extend_trace. eexists _, _; reflexivity.
           ++ edestruct (check_pickles_no_count sample oq op) as [t ->];
                [done..|].
              rewrite extend_trace. eexists _, _; reflexivity.
        -- destruct (path_exists fs (pickles_dir args sample)) eqn:He.
           ++ edestruct (check_pickles_unreadable sample oq) as [e ->];
                [done..|].
              destruct (jdl_dict !! sample) as [[n|]|];
                eexists _, _; reflexivity.
           ++ rewrite check_pickles_absent by done. rewrite extend_trace.
              destruct (jdl_dict !! sample) as [[n|]|];
                eexists _, _; reflexivity.
      * destruct (check_sample_parquet_unreadable sample σ) as (e & t & ->);
          [done..|].
        destruct (jdl_dict !! sample) as [[n|]|]; eexists _, _; reflexivity.
    + destruct (jdl_dict !! sample) as [[n|]|] eqn:Hn.
      * rewrite (check_sample_no_parquet _ n) by done.
        eexists _, _; reflexivity.
      * rewrite check_sample_no_parquet_float by done.
        eexists _, _; reflexivity.
      * rewrite check_sample_no_parquet_no_count by done.
        eexists _, _; reflexivity.
  - rewrite (check_sample_trigger _ σ Ht).
    destruct (produced (pickles_dir args sample)) as [op|] eqn:Hpp.
    + destruct (jdl_dict !! sample) as [[n|]|] eqn:Hn.
      * edestruct (check_pickles_checked sample [] op n) as [t ->]; [done..|].
        rewrite extend_assoc. unfold extend at 2; simpl.
        eexists _, _; reflexivity.
      * edestruct (check_pickles_float sample [] op) as [t ->]; [done..|].
        rewrite extend_trace. eexists _, _; reflexivity.
      * edestruct (check_pickles_no_count sample [] op) as [t ->]; [done..|].
        rewrite extend_trace. eexists _, _; reflexivity.
    + destruct (path_exists fs (pickles_dir args sample)) eqn:He.
      * edestruct (check_pickles_unreadable sample []) as [e ->]; [done..|].
        destruct (jdl_dict !! sample) as [[n|]|]; eexists _, _; reflexivity.
      * rewrite check_pickles_absent by done. rewrite extend_trace.
        destruct (jdl_dict !! sample) as [[n|]|]; eexists _, _; reflexivity.
Qed.

End Sample.


(** ** The reconciliation loop *)

Section Reconcile.

Variable int : string → option Z.
Variable args : arguments.
Variable fs : filesystem.
Variable jdl_dict : gmap string Np.scalar.
Variable running_jobs : list string.

Local Abbreviation check_sample := (check_sample int args fs jdl_dict running_jobs).
Local Abbreviation reconcile := (reconcile int args fs jdl_dict running_jobs).
Local Abbreviation sample_reports := (sample_reports int args fs jdl_dict running_jobs).
Local Abbreviation visited := (visited int args fs jdl_dict running_jobs).

Lemma appending_out_indices dir : appending (out_indices int fs dir).
Proof. unfold out_indices. appending. Qed.

Lemma appending_check_sample sample : appending (check_sample sample).
Proof.
  unfold CheckJobs.check_sample, check_pickles, check_body, no_parquet_body,
    jdl_dict_get, print, print_red, os_system.
  pose proof appending_out_indices. appending.
Qed.

Lemma appending_reconcile samples : appending (reconcile samples).
Proof. apply appending_for, appending_check_sample. Qed.

Lemma check_sample_run sample σ :
  ∃ t,
    check_sample sample σ
    = ((check_sample sample initial).1,
       extend σ (State (jdl_file args sample <$> sample_reports sample)
                       (err_file args sample <$> sample_reports sample)
                       t)).
Proof.
  rewrite (appending_check_sample sample σ).
  destruct (check_sample_reports int args fs jdl_dict running_jobs
              sample initial) as (r & t & ->).
  rewrite extend_initial_l. simpl. by exists t.
Qed.

Lemma reconcile_cons sample samples σ :
  reconcile (sample :: samples) σ
  = match check_sample sample σ with
    | (inr _, σ') => reconcile samples σ'
    | (inl e, σ') => (inl e, σ')
    end.
Proof. done. Qed.

Lemma visited_prefix samples : visited samples `prefix_of` samples.
Proof.
  induction samples as [|sample samples IH]; simpl; [done|].
  destruct (check_sample sample initial) as [[e|[]] δ].
  - apply prefix_cons, prefix_nil.
  - by apply prefix_cons.
Qed.

Lemma visited_all samples :
  (reconcile samples initial).1 = inr tt → visited samples = samples.
Proof.
  induction samples as [|sample samples IH]; simpl; [done|].
  rewrite reconcile_cons.
  destruct (check_sample sample initial) as [[e|[]] δ] eqn:E; simpl; [done|].
  rewrite (appending_reconcile samples δ). simpl.
  intros H. by rewrite IH.
Qed.

(** What the loop appends to the two result lists: the reports of the
    samples visited, sample after sample. *)
Lemma reconcile_run samples σ :
  ∃ t,
    reconcile samples σ
    = ((reconcile samples initial).1,
       extend σ
         (State (flat_map (λ s, jdl_file args s <$> sample_reports s)
                          (visited samples))
                (flat_map (λ s, err_file args s <$> sample_reports s)
                          (visited samples))
                t)).
Proof.
  rewrite (appending_reconcile samples σ).
  assert (∃ t, (reconcile samples initial).2
               = State (flat_map (λ s, jdl_file args s <$> sample_reports s)
                                 (visited samples))
                       (flat_map (λ s, err_file args s <$> sample_reports s)
                                 (visited samples))
                       t) as [t ->]; [|by exists t].
  induction samples as [|sample samples IH]; simpl.
  - by exists [].
  - rewrite reconcile_cons.
    destruct (check_sample_run sample initial) as [t1 E1]. rewrite E1.
    rewrite extend_initial_l.
    destruct ((check_sample sample initial).1) as [e|[]]; simpl.
    + rewrite !app_nil_r. by exists t1.
    + rewrite (appending_reconcile samples).
      destruct IH as [t2 ->]. simpl. unfold extend; simpl. by eexists.
Qed.

Lemma elem_of_reconcile_missing samples σ f :
  f ∈ missing_files (reconcile samples σ).2 →
  f ∈ missing_files σ
  ∨ ∃ s i, s ∈ samples ∧ i ∈ sample_reports s ∧ f = jdl_file args s i.
Proof.
  destruct (reconcile_run samples σ) as [t ->]. simpl.
  rewrite elem_of_app. intros [?|H]; [by left|right].
  apply list_elem_of_In, in_flat_map in H as (s & Hs & H).
  apply list_elem_of_In in Hs, H. apply list_elem_of_fmap in H as (i & -> & Hi).
  exists s, i. split_and!; [|done..].
  eapply elem_of_prefix; [done|]. apply visited_prefix.
Qed.

End Reconcile.

(** ** Which indices are reported, and when a check ends normally *)

Section Reports.

Variable int : string → option Z.
Variable args : arguments.
Variable fs : filesystem.
Variable jdl_dict : gmap string Np.scalar.
Variable running_jobs : list string.

Local Abbreviation check_sample := (check_sample int args fs jdl_dict running_jobs).
Local Abbreviation reconcile := (reconcile int args fs jdl_dict running_jobs).
Local Abbreviation sample_reports := (sample_reports int args fs jdl_dict running_jobs).
Local Abbreviation sample_pass := (sample_pass int args fs jdl_dict).
Local Abbreviation produced := (produced int fs).

Lemma elem_of_range (i n : Z) : i ∈ Py.range n ↔ 0 <= i < n.
Proof.
  unfold Py.range. rewrite list_elem_of_fmap. split.
  - intros (k & -> & Hk). apply elem_of_seq in Hk. lia.
  - intros H. exists (Z.to_nat i). split; [lia|]. apply elem_of_seq. lia.
Qed.

Lemma range_sorted (n : Z) : StronglySorted Z.lt (Py.range n).
Proof.
  unfold Py.range. generalize 0%nat as k.
  induction (Z.to_nat n) as [|m IH]; intros k; simpl; constructor.
  - apply IH.
  - apply Forall_forall. intros j (q & -> & Hq)%list_elem_of_fmap.
    apply elem_of_seq in Hq. lia.
Qed.

Lemma filter_sorted (P : Z → bool) (l : list Z) :
  StronglySorted Z.lt l → StronglySorted Z.lt (filter (λ i, P i) l).
Proof.
  induction 1 as [|x l Hl IH Hx]; [constructor|].
  rewrite filter_cons. destruct (P x); simpl; [|done].
  constructor; [done|]. apply Forall_forall. intros y Hy.
  apply list_elem_of_filter in Hy as [_ Hy].
  by eapply Forall_forall in Hx.
Qed.

Lemma is_running_true sample i :
  is_running args running_jobs sample i = true
  ↔ running args running_jobs sample i.
Proof. unfold is_running, running. apply bool_decide_eq_true. Qed.

Lemma not_trigger_true : not_trigger args = true ↔ secondary_required args.
Proof. unfold not_trigger, secondary_required. apply bool_decide_eq_true. Qed.

Lemma elem_true (i : Z) (l : list Z) : Py.elem i l = true ↔ i ∈ l.
Proof. apply bool_decide_eq_true. Qed.

Lemma sample_reports_sorted sample : StronglySorted Z.lt (sample_reports sample).
Proof.
  unfold CheckJobs.sample_reports.
  repeat case_match; try constructor; apply filter_sorted, range_sorted.
Qed.

(** A reported index lies below the expected count and is not running. *)
Lemma sample_reports_range sample i :
  i ∈ sample_reports sample →
  ∃ n, jdl_dict !! sample = Some (Np.Integer n) ∧ 0 <= i < n.
Proof.
  unfold CheckJobs.sample_reports. destruct (jdl_dict !! sample) as [[n|]|];
    [|by intros ?%elem_of_nil..].
  intros H. exists n. split; [done|].
  repeat case_match; try (by apply elem_of_nil in H);
    apply list_elem_of_filter in H as [_ H]; by apply elem_of_range.
Qed.

Lemma sample_reports_not_running sample i :
  i ∈ sample_reports sample → ¬ running args running_jobs sample i.
Proof.
  unfold CheckJobs.sample_reports, rerun. rewrite <-is_running_true.
  intros H.
  repeat case_match; try (by apply elem_of_nil in H);
    apply list_elem_of_filter in H as [H _];
    destruct (is_running args running_jobs sample i); try done;
    by rewrite ?andb_false_r in H.
Qed.

Ltac no_pass :=
  intros ?; exfalso;
  repeat match goal with
         | H : _ ∨ _ |- _ => destruct H
         | H : _ ∧ _ |- _ => destruct H
         | H : ∃ _, _ |- _ => destruct H
         | H : is_Some None |- _ => by apply is_Some_None in H
         | H : true = false |- _ => discriminate H
         | H : None = Some _ |- _ => discriminate H
         | H : Some _ = Some _ |- _ => discriminate H
         | H : ?x ≠ ?x |- _ => by destruct H
         end.

Ltac pass :=
  split; [|done]; intros _;
  solve [ by left | by right
        | right; split; [by eexists|]; solve [ by left | right; split; by eexists ]
        | right; split; by eexists ].

(** The check of a sample ends normally exactly under [sample_pass]. *)
Lemma check_sample_pass sample σ :
  (check_sample sample σ).1 = inr tt ↔ sample_pass sample.
Proof.
  unfold CheckJobs.sample_pass, pickles_pass.
  destruct (not_trigger args) eqn:Ht.
  - destruct (path_exists fs (parquet_dir args sample)) eqn:Hq.
    + destruct (produced (parquet_dir args sample)) as [oq|] eqn:Hpq.
      * rewrite (check_sample_parquet _ _ _ _ _ _ _ σ Ht Hpq).
        destruct (path_exists fs (pickles_dir args sample)) eqn:He.
        -- destruct (produced (pickles_dir args sample)) as [op|] eqn:Hpp.
           ++ destruct (jdl_dict !! sample) as [[n|]|] eqn:Hn.
              ** edestruct check_pickles_checked as [t ->]; [done..|].
                 simpl. pass.
              ** edestruct check_pickles_float as [t ->]; [done..|].
                 simpl. split; [done|]. no_pass.
              ** edestruct check_pickles_no_count as [t ->]; [done..|].
                 simpl. split; [done|]. no_pass.
           ++ edestruct check_pickles_unreadable as [e ->]; [done..|].
              simpl. split; [done|]. no_pass.
        -- rewrite check_pickles_absent by done. simpl. pass.
      * edestruct check_sample_parquet_unreadable as (e & t & ->); [done..|].
        simpl. split; [done|]. no_pass.
    + destruct (jdl_dict !! sample) as [[n|]|] eqn:Hn.
      * rewrite (check_sample_no_parquet _ _ _ _ _ _ n) by done.
        simpl. pass.
      * rewrite check_sample_no_parquet_float by done.
        rewrite (produced_absent int fs _ Hq).
        simpl. split; [done|]. no_pass.
      * rewrite check_sample_no_parquet_no_count by done. simpl. pass.
  - rewrite (check_sample_trigger _ _ _ _ _ _ σ Ht).
    destruct (path_exists fs (pickles_dir args sample)) eqn:He.
    + destruct (produced (pickles_dir args sample)) as [op|] eqn:Hpp.
      * destruct (jdl_dict !! sample) as [[n|]|] eqn:Hn.
        -- edestruct check_pickles_checked as [t ->]; [done..|].
           simpl. pass.
        -- edestruct check_pickles_float as [t ->]; [done..|].
           simpl. split; [done|]. no_pass.
        -- edestruct check_pickles_no_count as [t ->]; [done..|].
           simpl. split; [done|]. no_pass.
      * edestruct check_pickles_unreadable as [e ->]; [done..|].
        simpl. split; [done|]. no_pass.
    + rewrite check_pickles_absent by done. simpl. pass.
Qed.

(** A run that ends normally has checked every sample normally. *)
Lemma reconcile_pass samples σ :
  (reconcile samples σ).1 = inr tt ↔ Forall sample_pass samples.
Proof.
  revert σ. induction samples as [|sample samples IH]; intros σ.
  - simpl. split; [constructor|done].
  - rewrite reconcile_cons, Forall_cons, <-(check_sample_pass sample σ).
    destruct (check_sample sample σ) as [[e|[]] σ'] eqn:E; simpl.
    + intuition discriminate.
    + rewrite IH. intuition discriminate.
Qed.

(** The indices reported for a sample that passes the guard of line 128:
    those of the range that are neither complete nor running. *)
Lemma sample_reports_iff sample n i :
  sample_pass sample →
  ¬ skipped args fs sample →
  jdl_dict !! sample = Some (Np.Integer n) →
  i ∈ sample_reports sample
  ↔ 0 <= i < n
    ∧ ¬ complete int args fs sample i
    ∧ ¬ running args running_jobs sample i.
Proof.
  unfold CheckJobs.sample_pass, pickles_pass, skipped, CheckJobs.sample_reports,
    complete, produced_primary, produced_secondary, rerun.
  rewrite <-not_trigger_true, <-is_running_true. intros Hpass Hskip ->.
  destruct (not_trigger args) eqn:Ht.
  - destruct (path_exists fs (parquet_dir args sample)) eqn:Hq.
    + destruct Hpass as [[? _]|[[oq Hoq] Hpass]]; [done|].
      destruct Hpass as [Habs|[[op Hop] _]]; [by destruct Hskip|].
      rewrite Hoq, Hop. simpl.
      rewrite list_elem_of_filter, elem_of_range, <-!elem_true.
      destruct (Py.elem i op), (Py.elem i oq),
        (is_running args running_jobs sample i); simpl; intuition discriminate.
    + rewrite (produced_absent _ _ _ Hq). simpl.
      rewrite list_elem_of_filter, elem_of_range.
      assert (¬ (i ∈ default [] (produced (pickles_dir args sample))
                 ∧ (true = true → i ∈ @nil Z))) as Hnc.
      { intros [_ H]. specialize (H eq_refl). by apply elem_of_nil in H. }
      destruct (is_running args running_jobs sample i); simpl.
      * split; [by intros [[] _]|]. intros (_ & _ & H). by destruct H.
      * split; [by intros [_ ?]|by intros [? _]].
  - assert (path_exists fs (pickles_dir args sample) = true) as He.
    { destruct (path_exists fs (pickles_dir args sample)); [done|].
      by destruct Hskip. }
    destruct Hpass as [?|[[op Hop] _]]; [congruence|].
    rewrite Hop. simpl.
    rewrite list_elem_of_filter, elem_of_range, <-!elem_true.
    destruct (Py.elem i op), (is_running args running_jobs sample i); simpl;
      intuition discriminate.
Qed.

End Reports.

(** * The properties of the specification *)

Section Claims.

Variable int : string → option Z.
Variable args : arguments.
Variable fs : filesystem.
Variable jdl_dict : gmap string Np.scalar.
Variable running_jobs : list string.

Local Abbreviation check_sample := (check_sample int args fs jdl_dict running_jobs).
Local Abbreviation reconcile := (reconcile int args fs jdl_dict running_jobs).
Local Abbreviation sample_reports := (sample_reports int args fs jdl_dict running_jobs).
Local Abbreviation produced := (produced int fs).
Local Abbreviation running := (running args running_jobs).
Local Abbreviation is_running := (is_running args running_jobs).

(** C1. A sample found on storage without an expected count is not
    always skipped: when its output directories can be listed (the
    parquet one only if the processor is not ["trigger"]), the loop of
    line 139 reads [jdl_dict[sample]] and the run ends with [KeyError]. *)
Theorem no_count_raises_KeyError sample σ :
  jdl_dict !! sample = None →
  is_Some (produced (pickles_dir args sample)) →
  (secondary_required args → is_Some (produced (parquet_dir args sample))) →
  (check_sample sample σ).1 = inl (KeyError sample).
Proof.
  intros Hn [op Hp] Hq. destruct (not_trigger args) eqn:Ht.
  - destruct Hq as [oq Hq]; [by apply not_trigger_true|].
    rewrite (check_sample_parquet _ _ _ _ _ _ _ σ Ht Hq).
    by edestruct check_pickles_no_count as [t ->].
  - rewrite (check_sample_trigger _ _ _ _ _ _ σ Ht).
    by edestruct check_pickles_no_count as [t ->].
Qed.

(** The part of C1 the code does: without an expected count, a sample
    whose parquet directory is missing is skipped without a report. *)
Lemma no_count_no_parquet_skipped sample σ :
  jdl_dict !! sample = None →
  secondary_required args →
  path_exists fs (parquet_dir args sample) = false →
  (check_sample sample σ).1 = inr tt
  ∧ missing_files (check_sample sample σ).2 = missing_files σ
  ∧ err_files (check_sample sample σ).2 = err_files σ.
Proof.
  intros Hn Ht%not_trigger_true Hq.
  rewrite check_sample_no_parquet_no_count by done. simpl.
  by rewrite !app_nil_r.
Qed.

(** C2, as amended.  A sample whose pickles directory does not exist,
    while its parquet directory is listed or the processor is
    ["trigger"], is skipped: the warning is printed, nothing is added to
    the two result lists and the run goes on. *)
Theorem no_pickles_skips sample σ :
  path_exists fs (pickles_dir args sample) = false →
  (secondary_required args → is_Some (produced (parquet_dir args sample))) →
  ∃ t,
    check_sample sample σ
    = (inr tt,
       State (missing_files σ) (err_files σ)
             (trace σ ++ t
                ++ [PrintRed ("No pickles directory for " +:+ sample +:+ "!")])).
Proof.
  intros Hp Hq. destruct (not_trigger args) eqn:Ht.
  - destruct Hq as [oq Hq]; [by apply not_trigger_true|].
    rewrite (check_sample_parquet _ _ _ _ _ _ _ σ Ht Hq).
    rewrite check_pickles_absent by done. rewrite extend_trace.
    rewrite <-state_trace_only. by eexists.
  - rewrite (check_sample_trigger _ _ _ _ _ _ σ Ht).
    rewrite check_pickles_absent by done. rewrite extend_trace.
    rewrite <-state_trace_only. by eexists.
Qed.

(** C4. An index whose job name is in [running_jobs] is never added to
    [missing_files], whatever the listings hold and whether or not the
    output directories exist, and whether or not the run ends normally. *)
Theorem running_not_reported samples σ sample i :
  missing_files σ = [] →
  running sample i →
  ¬ reported args (reconcile samples σ).2 sample i.
Proof.
  intros Hσ Hrun Hrep.
  apply elem_of_reconcile_missing in Hrep as [Hrep|(s & j & _ & Hj & E)].
  - rewrite Hσ in Hrep. by apply elem_of_nil in Hrep.
  - apply sample_reports_not_running in Hj. apply Hj.
    unfold CheckJobs.running in *.
    by rewrite <-(jdl_file_job_name _ _ _ _ _ E).
Qed.


(** C3, as amended.  After a run that ends normally, for every sample
    with an expected count [n] that the guard of line 128 does not leave
    aside (its pickles directory exists, or its parquet directory is
    missing while secondary outputs are required), every
    index of [[0, n)] is in exactly one of three categories: complete
    (in the pickles listing and, unless the processor is ["trigger"], in
    the parquet listing), running while an output is missing, or
    reported in [missing_files]. *)
Theorem every_index_in_one_category samples σ σ' sample n i :
  missing_files σ = [] →
  reconcile samples σ = (inr tt, σ') →
  sample ∈ samples →
  jdl_dict !! sample = Some (Np.Integer n) →
  ¬ skipped args fs sample →
  0 <= i < n →
  (complete int args fs sample i
   ∧ ¬ in_flight int args fs running_jobs sample i
   ∧ ¬ reported args σ' sample i)
  ∨ (¬ complete int args fs sample i
     ∧ in_flight int args fs running_jobs sample i
     ∧ ¬ reported args σ' sample i)
  ∨ (¬ complete int args fs sample i
     ∧ ¬ in_flight int args fs running_jobs sample i
     ∧ reported args σ' sample i).
Proof.
  intros Hσ Hrun Hs Hn Hskip Hi.
  assert (Forall (sample_pass int args fs jdl_dict) samples) as Hpass.
  { apply (reconcile_pass _ _ _ _ running_jobs _ σ). by rewrite Hrun. }
  assert (sample_pass int args fs jdl_dict sample) as Hp.
  { by eapply Forall_forall in Hpass. }
  assert (reported args σ' sample i ↔ i ∈ sample_reports sample) as Hrep.
  { unfold reported. replace σ' with (reconcile samples σ).2 by by rewrite Hrun.
    split.
    - intros [H|(s & j & _ & Hj & E)]%elem_of_reconcile_missing.
      + rewrite Hσ in H. by apply elem_of_nil in H.
      + by apply jdl_file_inj in E as [<- <-].
    - intros H. destruct (reconcile_run int args fs jdl_dict running_jobs
                            samples σ) as [t ->]. simpl.
      rewrite (visited_all int args fs jdl_dict running_jobs samples).
      + apply elem_of_app. right. apply list_elem_of_In, in_flat_map.
        exists sample. split; [by apply list_elem_of_In|].
        apply list_elem_of_In, list_elem_of_fmap. by exists i.
      + by apply reconcile_pass. }
  rewrite Hrep, (sample_reports_iff _ _ _ _ _ _ n i Hp Hskip Hn).
  unfold in_flight.
  destruct (decide (i ∈ produced_primary int args fs sample)) as [H1|H1];
    destruct (decide (job_name args sample i ∈ running_jobs)) as [H3|H3];
    unfold complete, CheckJobs.running in *.
  all: destruct (decide (processor args = "trigger")) as [Hs2|Hs2];
    destruct (decide (i ∈ produced_secondary int args fs sample)) as [H2|H2];
    unfold secondary_required in *; tauto.
Qed.

(** C7. The loop has no hidden state: its result and what it appends to
    the two result lists are the same from every state it is started in,
    so that two runs on the same inputs give the same reports in the
    same order.  The reports come sample after sample, in the order of
    [samples] (all of them when the run ends normally, those up to the
    failing one otherwise), and by ascending index within a sample. *)
Theorem reconcile_deterministic_ordered samples :
  ∃ (r : exn + unit) (blocks : list (string * list Z)),
    blocks.*1 `prefix_of` samples
    ∧ (r = inr tt → blocks.*1 = samples)
    ∧ Forall (λ b, StronglySorted Z.lt b.2) blocks
    ∧ ∀ σ,
        (reconcile samples σ).1 = r
        ∧ missing_files (reconcile samples σ).2
          = missing_files σ ++ flat_map (λ b, jdl_file args b.1 <$> b.2) blocks
        ∧ err_files (reconcile samples σ).2
          = err_files σ ++ flat_map (λ b, err_file args b.1 <$> b.2) blocks.
Proof.
  exists (reconcile samples initial).1,
    ((λ s, (s, sample_reports s))
       <$> visited int args fs jdl_dict running_jobs samples).
  assert (∀ l : list string, ((λ s, (s, sample_reports s)) <$> l).*1 = l) as Hfst.
  { intros l. rewrite <-list_fmap_compose. apply list_fmap_id. }
  split_and!.
  - rewrite Hfst. apply visited_prefix.
  - intros H. rewrite Hfst. by apply visited_all.
  - apply Forall_fmap, Forall_forall. intros s _. apply sample_reports_sorted.
  - intros σ. destruct (reconcile_run int args fs jdl_dict running_jobs
                          samples σ) as [t ->]. simpl.
    split_and!; [done|..]; f_equal;
      induction (visited int args fs jdl_dict running_jobs samples);
      simpl; by f_equal.
Qed.

End Claims.

(** ** Two storage trees *)

Section TwoTrees.

Variable int : string → option Z.
Variable args : arguments.
Variable fs1 fs2 : filesystem.
Variable jdl_dict : gmap string Np.scalar.
Variable running_jobs : list string.

Local Abbreviation reconcile1 := (reconcile int args fs1 jdl_dict running_jobs).
Local Abbreviation reconcile2 := (reconcile int args fs2 jdl_dict running_jobs).

Lemma check_pickles_same_node sample outs_parquet σ :
  fs1 (pickles_dir args sample) = fs2 (pickles_dir args sample) →
  check_pickles int args fs1 jdl_dict running_jobs sample outs_parquet σ
  = check_pickles int args fs2 jdl_dict running_jobs sample outs_parquet σ.
Proof.
  intros H. unfold check_pickles, path_exists, out_indices, listdir.
  by rewrite H.
Qed.

(** C6. When the processor is ["trigger"], the parquet directories are
    never read: two runs on storage trees that agree on the pickles
    directories of the samples, and differ in any way elsewhere, end in
    the same state with the same result. *)
Theorem trigger_ignores_secondary samples σ :
  processor args = "trigger" →
  (∀ s, s ∈ samples → fs1 (pickles_dir args s) = fs2 (pickles_dir args s)) →
  reconcile1 samples σ = reconcile2 samples σ.
Proof.
  intros Ht. assert (not_trigger args = false) as Hnt.
  { unfold not_trigger. apply bool_decide_eq_false. by intros []. }
  revert σ. induction samples as [|s samples IH]; intros σ H; [done|].
  rewrite !reconcile_cons, !check_sample_trigger by done.
  rewrite (check_pickles_same_node s) by (apply H; left).
  destruct (check_pickles int args fs2 jdl_dict running_jobs s [] _)
    as [[e|[]] σ']; [done|].
  apply IH. intros s' Hs'. apply H. by right.
Qed.

Lemma elem_same (l1 l2 : list Z) (i : Z) :
  (∀ i, i ∈ l1 ↔ i ∈ l2) → Py.elem i l1 = Py.elem i l2.
Proof. intros H. unfold Py.elem. by apply bool_decide_ext. Qed.

Lemma same_indices_Some o1 o2 :
  same_indices o1 o2 → is_Some o1 ↔ is_Some o2.
Proof.
  destruct o1, o2; simpl; try done; intros _; split; intros [? ?]; done.
Qed.

Lemma sample_reports_same sample :
  same_outputs int fs1 fs2 (parquet_dir args sample) →
  same_outputs int fs1 fs2 (pickles_dir args sample) →
  sample_reports int args fs1 jdl_dict running_jobs sample
  = sample_reports int args fs2 jdl_dict running_jobs sample.
Proof.
  intros [Eq Hq] [Ep Hp]. unfold sample_reports. rewrite Eq.
  destruct (produced int fs1 (parquet_dir args sample)) as [oq1|],
    (produced int fs2 (parquet_dir args sample)) as [oq2|];
    destruct (produced int fs1 (pickles_dir args sample)) as [op1|],
      (produced int fs2 (pickles_dir args sample)) as [op2|];
    simpl in Hq, Hp; try done;
    repeat case_match; try done;
    apply filter_ext_in; intros i _; unfold rerun;
    by rewrite ?(elem_same op1 op2 i Hp), ?(elem_same oq1 oq2 i Hq).
Qed.

Lemma sample_pass_same sample :
  same_outputs int fs1 fs2 (parquet_dir args sample) →
  same_outputs int fs1 fs2 (pickles_dir args sample) →
  sample_pass int args fs1 jdl_dict sample
  ↔ sample_pass int args fs2 jdl_dict sample.
Proof.
  intros [Eq Hq%same_indices_Some] [Ep Hp%same_indices_Some].
  unfold sample_pass, pickles_pass. rewrite Eq, Ep.
  destruct (not_trigger args); tauto.
Qed.

Lemma visited_same samples :
  (∀ s, s ∈ samples →
        same_outputs int fs1 fs2 (parquet_dir args s)
        ∧ same_outputs int fs1 fs2 (pickles_dir args s)) →
  visited int args fs1 jdl_dict running_jobs samples
  = visited int args fs2 jdl_dict running_jobs samples.
Proof.
  induction samples as [|s samples IH]; intros H; [done|]. simpl.
  destruct (H s) as [Hq Hp]; [left|].
  pose proof (check_sample_pass int args fs1 jdl_dict running_jobs s initial) as H1.
  pose proof (check_sample_pass int args fs2 jdl_dict running_jobs s initial) as H2.
  pose proof (sample_pass_same s Hq Hp) as H12.
  rewrite IH by (intros s' Hs'; apply H; by right).
  destruct (check_sample int args fs1 jdl_dict running_jobs s initial)
    as [[e1|[]] δ1];
    destruct (check_sample int args fs2 jdl_dict running_jobs s initial)
      as [[e2|[]] δ2]; simpl in *; try done.
  - assert (@inl exn unit e1 = inr tt) by tauto. done.
  - assert (@inl exn unit e2 = inr tt) by tauto. done.
Qed.

(** C9. The reports depend on the listings through the sets of indices
    only: two runs on storage trees whose output directories hold the
    same indices, listed in any order and any number of times, add the
    same files to the two result lists and end normally together. *)
Theorem duplicate_outputs_ignored samples σ :
  (∀ s, s ∈ samples →
        same_outputs int fs1 fs2 (parquet_dir args s)
        ∧ same_outputs int fs1 fs2 (pickles_dir args s)) →
  missing_files (reconcile1 samples σ).2 = missing_files (reconcile2 samples σ).2
  ∧ err_files (reconcile1 samples σ).2 = err_files (reconcile2 samples σ).2
  ∧ ((reconcile1 samples σ).1 = inr tt ↔ (reconcile2 samples σ).1 = inr tt).
Proof.
  intros H.
  destruct (reconcile_run int args fs1 jdl_dict running_jobs samples σ)
    as [t1 E1].
  destruct (reconcile_run int args fs2 jdl_dict running_jobs samples σ)
    as [t2 E2].
  assert (∀ (f : string → Z → string) (l : list string),
            (∀ s, s ∈ l → s ∈ samples) →
            flat_map (λ s, f s <$> sample_reports int args fs1 jdl_dict
                                      running_jobs s) l
            = flat_map (λ s, f s <$> sample_reports int args fs2 jdl_dict
                                        running_jobs s) l) as Hflat.
  { intros f l. induction l as [|s l IH]; intros Hl; [done|]. simpl.
    destruct (H s) as [Hq Hp]; [apply Hl; left|].
    rewrite (sample_reports_same s Hq Hp), IH; [done|].
    intros s' Hs'. apply Hl. by right. }
  split_and!.
  - rewrite E1, E2. simpl. rewrite (visited_same samples H). f_equal.
    apply Hflat. intros s Hs. eapply elem_of_prefix; [done|].
    apply visited_prefix.
  - rewrite E1, E2. simpl. rewrite (visited_same samples H). f_equal.
    apply Hflat. intros s Hs. eapply elem_of_prefix; [done|].
    apply visited_prefix.
  - rewrite !reconcile_pass, !Forall_forall. split; intros Hall s Hs;
      destruct (H s Hs) as [Hq Hp]; by apply (sample_pass_same s Hq Hp), Hall.
Qed.

End TwoTrees.

(** ** The whole script *)

Section Main.

Variable int : string → option Z.
Variable args : arguments.
Variable fs : filesystem.

Lemma silent_ret {A} (a : A) : silent (mret a).
Proof. done. Qed.

Lemma silent_raise {A} (e : exn) : silent (@raise A e).
Proof. done. Qed.

Lemma silent_emit e : silent (emit e).
Proof. done. Qed.

Lemma silent_bind {A B} (m : M A) (k : A → M B) :
  silent m → (∀ a, silent (k a)) → silent (m ≫= k).
Proof.
  intros Hm Hk σ. unfold mbind, M_bind. specialize (Hm σ).
  destruct (m σ) as [[e|a] σ']; simpl in *; [done|].
  destruct (Hk a σ') as [-> ->]. done.
Qed.

Lemma silent_for {A} (l : list A) (body : A → M unit) :
  (∀ x, silent (body x)) → silent (for_ l body).
Proof.
  intros Hbody. induction l as [|x l IH]; simpl.
  - apply silent_ret.
  - apply silent_bind; auto.
Qed.

Lemma silent_comprehension {A B} (f : A → M B) (l : list A) :
  (∀ x, silent (f x)) → silent (comprehension f l).
Proof.
  intros Hf. induction l as [|x l IH]; simpl.
  - apply silent_ret.
  - apply silent_bind; [done|]. intros y.
    apply silent_bind; [done|]. intros ys. apply silent_ret.
Qed.

Lemma silent_listdir p : silent (listdir fs p).
Proof.
  unfold listdir. destruct (fs p) as [[|entries]|];
    auto using silent_ret, silent_raise.
Qed.

Lemma silent_py_int s : silent (py_int int s).
Proof.
  unfold py_int. destruct (int s); auto using silent_ret, silent_raise.
Qed.

Lemma silent_sample_indices jdls sample :
  silent (sample_indices int args jdls sample).
Proof. apply silent_comprehension. intros jdl. apply silent_py_int. Qed.

Lemma silent_jdl_dict_loop jdls jdl_dict samples :
  silent (jdl_dict_loop int args jdls jdl_dict samples).
Proof.
  revert jdl_dict. induction samples as [|sample samples IH]; intros d; simpl.
  - apply silent_ret.
  - apply silent_bind; [|done]. unfold jdl_dict_step.
    apply silent_bind; [apply silent_sample_indices|].
    intros x. destruct (0 <? length x)%nat; apply silent_ret.
Qed.

Lemma silent_read_running_jobs condor_q_lines :
  silent (read_running_jobs args condor_q_lines).
Proof.
  unfold read_running_jobs. destruct (check_running args); [|apply silent_ret].
  apply silent_bind; [apply silent_emit|]. intros _. apply silent_ret.
Qed.

Lemma silent_print_summary : silent print_summary.
Proof.
  intros σ. unfold print_summary.
  apply (silent_bind (print _)); [apply silent_emit|]. intros _.
  apply (silent_bind (for_ _ _)); [apply silent_for; intros ?; apply silent_emit|].
  intros _. apply (silent_bind (print _)); [apply silent_emit|]. intros _.
  apply silent_for. intros ?. apply silent_emit.
Qed.

Lemma keeps_paired_silent {A} (m : M A) : silent m → keeps_paired args m.
Proof.
  intros Hm σ (jobs & E1 & E2). unfold paired.
  destruct (Hm σ) as [-> ->]. by exists jobs.
Qed.

Lemma keeps_paired_bind {A B} (m : M A) (k : A → M B) :
  keeps_paired args m → (∀ a, keeps_paired args (k a)) →
  keeps_paired args (m ≫= k).
Proof.
  intros Hm Hk σ Hσ. unfold mbind, M_bind. specialize (Hm σ Hσ).
  destruct (m σ) as [[e|a] σ']; simpl in *; [done|]. by apply Hk.
Qed.

Lemma keeps_paired_reconcile jdl_dict running_jobs samples :
  keeps_paired args (reconcile int args fs jdl_dict running_jobs samples).
Proof.
  intros σ (jobs & E1 & E2).
  destruct (reconcile_run int args fs jdl_dict running_jobs samples σ)
    as [t ->]. unfold paired, extend. simpl.
  exists (jobs ++ flat_map
            (λ s, (λ i, (s, i))
                    <$> sample_reports int args fs jdl_dict running_jobs s)
            (visited int args fs jdl_dict running_jobs samples)).
  rewrite !fmap_app, E1, E2.
  split; f_equal;
    induction (visited int args fs jdl_dict running_jobs samples) as [|s l IH];
    simpl; try done; rewrite fmap_app, IH; f_equal;
    by rewrite <-list_fmap_compose.
Qed.

Lemma keeps_paired_main condor_q_lines :
  keeps_paired args (main int args fs condor_q_lines).
Proof.
  unfold main.
  apply keeps_paired_bind; [apply keeps_paired_silent, silent_listdir|].
  intros samples.
  apply keeps_paired_bind; [apply keeps_paired_silent, silent_listdir|].
  intros names.
  apply keeps_paired_bind;
    [apply keeps_paired_silent, silent_jdl_dict_loop|].
  intros jdl_dict.
  apply keeps_paired_bind;
    [apply keeps_paired_silent, silent_read_running_jobs|].
  intros running_jobs.
  apply keeps_paired_bind; [apply keeps_paired_reconcile|].
  intros _. apply keeps_paired_silent, silent_print_summary.
Qed.

(** C10. After every run of the script, [missing_files] and [err_files]
    have the same length, and at every position they hold the directive
    path and the log path of the same sample and index. *)
Theorem missing_and_err_files_paired condor_q_lines :
  let σ := (main int args fs condor_q_lines initial).2 in
  length (missing_files σ) = length (err_files σ)
  ∧ ∀ k,
      (∀ f, missing_files σ !! k = Some f →
            ∃ sample i, f = jdl_file args sample i
                        ∧ err_files σ !! k = Some (err_file args sample i))
      ∧ (∀ f, err_files σ !! k = Some f →
              ∃ sample i, f = err_file args sample i
                          ∧ missing_files σ !! k = Some (jdl_file args sample i)).
Proof.
  intros σ.
  destruct (keeps_paired_main condor_q_lines initial) as (jobs & E1 & E2).
  { by exists []. }
  fold σ in E1, E2. rewrite E1, E2. split.
  - by rewrite !length_fmap.
  - intros k. split; intros f; rewrite !list_lookup_fmap;
      destruct (jobs !! k) as [[s i]|]; simpl; intros [= <-]; by exists s, i.
Qed.

End Main.

(** ** Expected job counts *)

Section Counts.

Variable int : string → option Z.
Variable args : arguments.

Lemma comprehension_py_int_inr (f : string → string) l σ x σ' :
  comprehension (λ a, py_int int (f a)) l σ = (inr x, σ') →
  σ' = σ ∧ Forall2 (λ a i, int (f a) = Some i) l x.
Proof.
  revert x. induction l as [|a l IH]; intros x; simpl.
  - intros [= <- <-]. by split.
  - unfold mbind, M_bind. rewrite py_int_run.
    destruct (int (f a)) as [z|] eqn:Ez; [|done].
    destruct (comprehension (λ a0, py_int int (f a0)) l σ) as [[e|ys] σ1];
      [done|].
    intros [= <- <-]. destruct (IH ys eq_refl) as [-> H].
    split; [done|]. by constructor.
Qed.

Lemma sample_indices_inr jdls sample σ x σ' :
  sample_indices int args jdls sample σ = (inr x, σ') →
  σ' = σ ∧ encoded_indices int args jdls sample x.
Proof. apply comprehension_py_int_inr. Qed.

Lemma encoded_indices_run jdls sample x :
  (sample_indices int args jdls sample initial).1 = inr x →
  encoded_indices int args jdls sample x.
Proof.
  destruct (sample_indices int args jdls sample initial) as [r σ'] eqn:E.
  simpl. intros ->. by apply sample_indices_inr in E as [_ ?].
Qed.

Lemma encoded_indices_unique jdls sample x y :
  encoded_indices int args jdls sample x →
  encoded_indices int args jdls sample y → x = y.
Proof.
  unfold encoded_indices.
  generalize (filter (λ jdl, jdl_matches args sample jdl) jdls) as l.
  intros l Hx. revert y. induction Hx as [|a i l x Ha Hx IH]; intros y Hy.
  - by inversion Hy.
  - inversion Hy as [|? j ? y' Hj Hy']; subst. f_equal; [congruence|].
    by apply IH.
Qed.

Lemma last_sorted_max (l : list Z) :
  StronglySorted Z.le l → l ≠ [] → is_max (List.last l 0) l.
Proof.
  induction 1 as [|a l Hl IH Ha]; intros Hne; [done|].
  destruct l as [|b l].
  - simpl. split; [left|]. intros i ->%list_elem_of_singleton. lia.
  - destruct IH as [Hin Hmax]; [done|].
    change (List.last (a :: b :: l) 0) with (List.last (b :: l) 0).
    split; [by right|].
    intros i [->|Hi]%elem_of_cons; [|by apply Hmax].
    rewrite Forall_forall in Ha. by apply Ha.
Qed.

Lemma np_sort_last_max (x : list Z) :
  x ≠ [] → is_max (Np.last (Np.sort x)) x.
Proof.
  intros Hne. unfold Np.last, Np.sort.
  pose proof (merge_sort_Permutation Z.le x) as Hperm.
  destruct (last_sorted_max (merge_sort Z.le x)) as [Hin Hmax].
  - apply StronglySorted_merge_sort; apply _.
  - intros E. rewrite E in Hperm. symmetry in Hperm.
    by apply Permutation_nil_r in Hperm.
  - split.
    + eapply elem_of_Permutation_proper; [symmetry; exact Hperm|done].
    + intros i Hi. apply Hmax.
      eapply elem_of_Permutation_proper; [exact Hperm|done].
Qed.

Lemma is_max_unique (x : list Z) (m1 m2 : Z) :
  is_max m1 x → is_max m2 x → m1 = m2.
Proof.
  intros [H1 M1] [H2 M2]. specialize (M1 m2 H2). specialize (M2 m1 H1). lia.
Qed.

Lemma wrap64_id (z : Z) : Np.is_int64 z → Np.wrap64 z = z.
Proof.
  unfold Np.is_int64, Np.int64_min, Np.int64_max, Np.wrap64. intros H.
  rewrite Z.mod_small; lia.
Qed.

(** A property that the common type keeps holds of the type of an
    array as soon as it holds of the type found for each element. *)
Lemma array_dtype_ind (P : Np.dtype → Prop) (x : list Z) :
  (∀ a b, P a → P b → P (Np.promote a b)) →
  x ≠ [] →
  Forall (λ z, P (Np.dtype_of z)) x →
  P (Np.array_dtype x).
Proof.
  intros Hpromote Hne Hx. destruct x as [|z x]; [done|].
  apply Forall_cons in Hx as [Hz Hx]. simpl.
  induction Hx as [|y x Hy Hx IH]; simpl; auto.
Qed.

(** A list of integers that all fit [int64] gives an [int64] array. *)
Lemma array_dtype_int64 (x : list Z) :
  x ≠ [] → Forall Np.is_int64 x → Np.array_dtype x = Np.int64.
Proof.
  intros Hne Hx. apply (array_dtype_ind (λ t, t = Np.int64)); [|done|].
  - by intros a b -> ->.
  - eapply Forall_impl; [done|]. intros z Hz. unfold Np.dtype_of.
    by rewrite bool_decide_true.
Qed.

(** A list of integers that are all at most the greatest [int64] gives
    an [int64] array, or an [object] array if one of them lies below the
    least [int64]. *)
Lemma array_dtype_below (x : list Z) :
  x ≠ [] →
  Forall (λ z, z <= Np.int64_max) x →
  Np.array_dtype x = Np.int64 ∨ Np.array_dtype x = Np.object.
Proof.
  intros Hne Hx.
  apply (array_dtype_ind (λ t, t = Np.int64 ∨ t = Np.object)); [|done|].
  - intros a b [->| ->] [->| ->]; simpl; auto.
  - eapply Forall_impl; [done|]. intros z Hz. unfold Np.dtype_of.
    case_bool_decide; [by left|]. right.
    rewrite bool_decide_false; [done|].
    unfold Np.int64_min, Np.int64_max, Np.uint64_max in *. lia.
Qed.

(** Where the greatest index leaves room for the addition, the count
    is that index plus one. *)
Lemma np_add_max (x : list Z) (m : Z) :
  is_max m x →
  Np.int64_min <= m < Np.int64_max →
  Np.add (Np.array_dtype x) m 1 = Np.Integer (m + 1).
Proof.
  intros [Hin Hmax] Hm.
  destruct (array_dtype_below x) as [-> | ->].
  - intros ->. by apply elem_of_nil in Hin.
  - apply Forall_forall. intros z Hz. specialize (Hmax z Hz). lia.
  - simpl. f_equal. apply wrap64_id.
    unfold Np.is_int64, Np.int64_min, Np.int64_max in *. lia.
  - done.
Qed.

(** A [float64] array comes from a list that holds both an integer
    that fits [int64] and one that only fits [uint64]. *)
Lemma array_dtype_float64 (x : list Z) :
  Np.array_dtype x = Np.float64 →
  x ≠ [] →
  (∃ i, i ∈ x ∧ Np.int64_max < i <= Np.uint64_max)
  ∧ (∃ j, j ∈ x ∧ Np.is_int64 j).
Proof.
  intros Ht Hne.
  assert (∀ z, Np.dtype_of z = Np.uint64 → Np.int64_max < z <= Np.uint64_max)
    as Hu.
  { intros z. unfold Np.dtype_of. repeat case_bool_decide; try done.
    unfold Np.int64_min, Np.int64_max, Np.uint64_max in *. lia. }
  assert (∀ z, Np.dtype_of z = Np.int64 → Np.is_int64 z) as Hi.
  { intros z. unfold Np.dtype_of. by repeat case_bool_decide. }
  assert (∀ z, Np.dtype_of z ≠ Np.float64) as Hf.
  { intros z. unfold Np.dtype_of. by repeat case_bool_decide. }
  pose (P := λ (l : list Z) (t : Np.dtype),
          match t with
          | Np.int64 => ∃ j, j ∈ l ∧ Np.is_int64 j
          | Np.uint64 => ∃ i, i ∈ l ∧ Np.int64_max < i <= Np.uint64_max
          | Np.float64 =>
              (∃ i, i ∈ l ∧ Np.int64_max < i <= Np.uint64_max)
              ∧ (∃ j, j ∈ l ∧ Np.is_int64 j)
          | Np.object => True
          end).
  assert (∀ l l' t, (∀ z, z ∈ l → z ∈ l') → P l t → P l' t) as Hmono.
  { intros l l' t Hsub. destruct t; simpl; [| | |done].
    - intros (j & ? & ?). exists j. auto.
    - intros (i & ? & ?). exists i. auto.
    - intros [(i & ? & ?) (j & ? & ?)]. split; [exists i|exists j]; auto. }
  assert (∀ z, P [z] (Np.dtype_of z)) as Hone.
  { intros z. destruct (Np.dtype_of z) eqn:E; simpl; [| | |done].
    - exists z. split; [left|auto].
    - exists z. split; [left|auto].
    - by destruct (Hf z). }
  assert (∀ l l' a b, P l a → P l' b → P (l ++ l') (Np.promote a b)) as Hpro.
  { intros l l' a b Ha Hb.
    assert (P (l ++ l') a) as Ha'.
    { eapply Hmono; [|done]. intros z Hz. apply elem_of_app. by left. }
    assert (P (l ++ l') b) as Hb'.
    { eapply Hmono; [|done]. intros z Hz. apply elem_of_app. by right. }
    destruct a, b; simpl in *; try done; try tauto. }
  assert (P x (Np.array_dtype x)) as HP.
  { destruct x as [|z x]; [done|]. clear Ht Hne. simpl.
    induction x as [|y x IH]; [apply Hone|]. simpl.
    eapply Hmono; [|apply (Hpro [y] (z :: x)); [apply Hone|apply IH]].
    intros w. simpl. rewrite !elem_of_cons. tauto. }
  rewrite Ht in HP. exact HP.
Qed.

(** The count of a sample is a [np.float64] only for a [float64]
    array. *)
Lemma np_add_float64 (t : Np.dtype) (v k : Z) :
  Np.add t v k = Np.Float64 → t = Np.float64.
Proof. by destruct t. Qed.

Lemma jdl_dict_step_inr jdls d0 sample σ d σ' :
  jdl_dict_step int args jdls d0 sample σ = (inr d, σ') →
  ∃ x, encoded_indices int args jdls sample x
       ∧ σ' = σ
       ∧ d = match x with
             | [] => d0
             | _ => <[sample := Np.add (Np.array_dtype x)
                                       (Np.last (Np.sort x)) 1]> d0
             end.
Proof.
  unfold jdl_dict_step, mbind, M_bind.
  destruct (sample_indices int args jdls sample σ) as [[e|x] σ1] eqn:E;
    [done|].
  apply sample_indices_inr in E as [-> Hx]. intros H. exists x.
  destruct x as [|i x]; simpl in H; injection H as <- <-; done.
Qed.

Lemma jdl_dict_loop_inr jdls samples d0 σ d σ' sample :
  jdl_dict_loop int args jdls d0 samples σ = (inr d, σ') →
  (sample ∉ samples → d !! sample = d0 !! sample)
  ∧ (sample ∈ samples →
     ∃ x, encoded_indices int args jdls sample x
          ∧ (x = [] → d !! sample = d0 !! sample)
          ∧ (x ≠ [] →
             d !! sample
             = Some (Np.add (Np.array_dtype x) (Np.last (Np.sort x)) 1))).
Proof.
  revert d0 σ. induction samples as [|s samples IH]; intros d0 σ; simpl.
  - intros [= <- <-]. split; [done|]. by intros ?%elem_of_nil.
  - unfold mbind, M_bind.
    destruct (jdl_dict_step int args jdls d0 s σ) as [[e|d1] σ1] eqn:E;
      [done|].
    apply jdl_dict_step_inr in E as (x0 & Hx0 & -> & Hd1).
    intros Hloop. destruct (IH _ _ Hloop) as [IH1 IH2].
    assert (s ≠ sample → d1 !! sample = d0 !! sample) as Hne.
    { intros Hs. rewrite Hd1. destruct x0; [done|].
      by rewrite lookup_insert_ne. }
    split.
    + intros [Hs Hrest]%not_elem_of_cons. rewrite IH1 by done.
      apply Hne. congruence.
    + intros Hin. destruct (decide (sample ∈ samples)) as [Hrest|Hrest].
      * destruct (IH2 Hrest) as (x & Hx & Hnil & Hcons).
        exists x. split_and!; [done| |done].
        intros ->. rewrite Hnil by done.
        destruct (decide (s = sample)) as [->|Hs]; [|by apply Hne].
        rewrite (encoded_indices_unique _ _ _ _ Hx0 Hx) in Hd1. by rewrite Hd1.
      * apply elem_of_cons in Hin as [->|?]; [|done].
        exists x0. rewrite IH1 by done. rewrite Hd1. split_and!; [done|..].
        -- by intros ->.
        -- intros Hx. destruct x0; [done|]. by rewrite lookup_insert_eq.
Qed.

(** C8, as amended.  When the expected counts are built, a sample of
    the storage listing with no matching directive name gets no entry,
    and a sample whose greatest encoded index [m] fits numpy's [int64]
    with room for the addition gets the entry [m + 1]; a name that is not
    in the storage listing gets no entry. *)
Theorem expected_count_is_max_plus_one samples jdls σ d σ' sample :
  build_jdl_dict int args samples jdls σ = (inr d, σ') →
  (sample ∉ samples → d !! sample = None)
  ∧ (sample ∈ samples →
     ∃ x, encoded_indices int args jdls sample x
          ∧ (x = [] → d !! sample = None)
          ∧ (∀ m, is_max m x →
                  Np.int64_min <= m < Np.int64_max →
                  d !! sample = Some (Np.Integer (m + 1)))).
Proof.
  intros H. apply (jdl_dict_loop_inr _ _ _ _ _ _ sample) in H as [H1 H2].
  split; [done|]. intros Hin. destruct (H2 Hin) as (x & Hx & Hnil & Hcons).
  exists x. split_and!; [done|done|].
  intros m Hm Hrange. assert (x ≠ []) as Hne.
  { intros ->. destruct Hm as [Hm _]. by apply elem_of_nil in Hm. }
  rewrite Hcons by done. f_equal.
  rewrite (is_max_unique x _ m (np_sort_last_max x Hne) Hm).
  by apply np_add_max.
Qed.

End Counts.

(** * Further properties of the script *)

(** ** Splitting and joining names *)

Section Split.

Lemma split_nonempty sep s : Py.split sep s ≠ [].
Proof.
  destruct s as [|c s]; simpl; [done|].
  destruct (Ascii.eqb c sep); [done|]. by destruct (Py.split sep s).
Qed.

Lemma split_cons_ne sep c s :
  c ≠ sep →
  Py.split sep (String c s)
  = String c (hd EmptyString (Py.split sep s)) :: tl (Py.split sep s).
Proof.
  intros Hc. simpl. apply Ascii.eqb_neq in Hc. rewrite Hc.
  pose proof (split_nonempty sep s). by destruct (Py.split sep s).
Qed.

Lemma split_cons_eq sep s :
  Py.split sep (String sep s) = EmptyString :: Py.split sep s.
Proof. simpl. by rewrite Ascii.eqb_refl. Qed.

(** A name without separator is a single field. *)
Lemma split_no_sep sep s : sep ∉ chars s → Py.split sep s = [s].
Proof.
  induction s as [|c s IH]; [done|].
  rewrite chars_cons, not_elem_of_cons. intros [Hc Hs].
  rewrite split_cons_ne by done. by rewrite IH.
Qed.

(** The fields of [a], then those of [b], are the fields of [a sep b]. *)
Lemma split_app sep a b :
  Py.split sep (a +:+ String sep b) = Py.split sep a ++ Py.split sep b.
Proof.
  induction a as [|c a IH].
  - apply split_cons_eq.
  - change (String c a +:+ String sep b) with (String c (a +:+ String sep b)).
    destruct (decide (c = sep)) as [->|Hc].
    + rewrite !split_cons_eq, IH. done.
    + rewrite !split_cons_ne, IH by done.
      pose proof (split_nonempty sep a). by destruct (Py.split sep a).
Qed.

Lemma join_cons sep w ws :
  ws ≠ [] → Py.join sep (w :: ws) = w +:+ sep +:+ Py.join sep ws.
Proof. by destruct ws. Qed.

Lemma string_app_cons c (a b : string) :
  String c a +:+ b = String c (a +:+ b).
Proof. done. Qed.

Lemma string_app_nil_r (s : string) : s +:+ EmptyString = s.
Proof. induction s as [|c s IH]; [done|]. by rewrite !string_app_cons, IH. Qed.

Lemma string_app_assoc (a b c : string) : (a +:+ b) +:+ c = a +:+ b +:+ c.
Proof. induction a as [|x a IH]; [done|]. by rewrite !string_app_cons, IH. Qed.

(** Joining the fields of a name gives the name back. *)
Lemma join_split sep s : Py.join (String sep EmptyString) (Py.split sep s) = s.
Proof.
  induction s as [|c s IH]; [done|].
  destruct (decide (c = sep)) as [->|Hc].
  - rewrite split_cons_eq, join_cons by apply split_nonempty. by rewrite IH.
  - rewrite split_cons_ne by done.
    pose proof (split_nonempty sep s) as Hne.
    destruct (Py.split sep s) as [|w ws]; [done|]. simpl hd. simpl tl.
    destruct ws as [|w' ws].
    + simpl in *. by rewrite IH.
    + rewrite join_cons by done. rewrite join_cons in IH by done.
      by rewrite (string_app_cons c w), IH.
Qed.

Lemma string_length_app (a b : string) :
  String.length (a +:+ b) = (String.length a + String.length b)%nat.
Proof.
  induction a as [|c a IH]; [done|]. rewrite string_app_cons. simpl.
  by rewrite IH.
Qed.

Lemma substring_prefix (a b : string) :
  substring 0 (String.length a) (a +:+ b) = a.
Proof.
  induction a as [|c a IH]; [by destruct b|].
  rewrite string_app_cons. simpl. by rewrite IH.
Qed.

Lemma substring_suffix (a b : string) :
  substring (String.length a) (String.length b) (a +:+ b) = b.
Proof.
  induction a as [|c a IH]; [|done].
  change (EmptyString +:+ b) with b. simpl.
  induction b as [|c b IH]; [done|]. simpl. by rewrite IH.
Qed.

Lemma substring_all (s : string) : substring 0 (String.length s) s = s.
Proof. induction s as [|c s IH]; [done|]. simpl. by rewrite IH. Qed.

Lemma substring_split (n : nat) (s : string) :
  (n ≤ String.length s)%nat →
  substring 0 n s +:+ substring n (String.length s - n) s = s.
Proof.
  revert n. induction s as [|c s IH]; intros n Hn.
  - destruct n; [done|]. simpl in Hn. lia.
  - destruct n as [|n].
    + rewrite Nat.sub_0_r, substring_all. done.
    + simpl in Hn. simpl. rewrite string_app_cons. by rewrite IH by lia.
Qed.

(** [(a + b)[:-len(b)]] is [a]. *)
Lemma drop_last_app (a b : string) : Py.drop_last (String.length b) (a +:+ b) = a.
Proof.
  unfold Py.drop_last. rewrite string_length_app.
  replace (String.length a + String.length b - String.length b)%nat
    with (String.length a) by lia.
  apply substring_prefix.
Qed.

Lemma endswith_app (a b : string) : Py.endswith (a +:+ b) b = true.
Proof.
  unfold Py.endswith. rewrite string_length_app.
  replace (String.length a + String.length b - String.length b)%nat
    with (String.length a) by lia.
  rewrite substring_suffix, String.eqb_refl.
  apply andb_true_iff. split; [|done]. apply Nat.leb_le. lia.
Qed.

(** A string that ends with [b] is its part before [b], then [b]. *)
Lemma endswith_inv (s b : string) :
  Py.endswith s b = true → s = Py.drop_last (String.length b) s +:+ b.
Proof.
  unfold Py.endswith, Py.drop_last.
  intros [Hle Heq%String.eqb_eq]%andb_true_iff. apply Nat.leb_le in Hle.
  pose proof (substring_split (String.length s - String.length b) s) as H.
  replace (String.length s - (String.length s - String.length b))%nat
    with (String.length b) in H by lia.
  rewrite Heq in H. symmetry. apply H. lia.
Qed.

End Split.

(** ** Names of directives, running jobs and outputs *)

Section Names.

Variable args : arguments.

Lemma last_separator sep (a : string) :
  sep ∉ chars a
  ∨ ∃ a1 a2, a = a1 +:+ String sep a2 ∧ sep ∉ chars a2.
Proof.
  induction a as [|c a IH]; [left; apply not_elem_of_nil|].
  destruct IH as [Hno|(a1 & a2 & -> & Hno)].
  - destruct (decide (c = sep)) as [->|Hc].
    + right. by exists EmptyString, a.
    + left. rewrite chars_cons, not_elem_of_cons. done.
  - right. by exists (String c a1), a2.
Qed.

(** A suffix without separator extends the last field. *)
Lemma last_split_app sep (a b : string) :
  sep ∉ chars b →
  Py.last (Py.split sep (a +:+ b)) = Py.last (Py.split sep a) +:+ b.
Proof.
  intros Hb. unfold Py.last.
  destruct (last_separator sep a) as [Ha|(a1 & a2 & -> & Ha)].
  - assert (sep ∉ chars (a +:+ b)) as Hab.
    { rewrite chars_app, not_elem_of_app. done. }
    by rewrite (split_no_sep sep a), (split_no_sep sep (a +:+ b)).
  - assert (sep ∉ chars (a2 +:+ b)) as Hab.
    { rewrite chars_app, not_elem_of_app. done. }
    rewrite string_app_assoc, string_app_cons, !split_app.
    rewrite (split_no_sep sep a2), (split_no_sep sep (a2 +:+ b)) by done.
    by rewrite !last_last.
Qed.

Lemma join_snoc sep (m : list string) (z : string) :
  m ≠ [] → Py.join sep (m ++ [z]) = Py.join sep m +:+ sep +:+ z.
Proof.
  induction m as [|w m IH]; [done|]. intros _.
  destruct m as [|w' m]; [done|].
  change ((w :: w' :: m) ++ [z]) with (w :: ((w' :: m) ++ [z])).
  rewrite join_cons by (by destruct m). rewrite IH by done.
  rewrite (join_cons _ w) by done. by rewrite !string_app_assoc.
Qed.

Lemma pretty_N_go_avoids (c : ascii) (x : N) (s : string) :
  (∀ d, pretty_N_char d ≠ c) →
  c ∉ chars s → c ∉ chars (pretty_N_go x s).
Proof.
  intros Hc. revert s. induction (N.lt_wf_0 x) as [x _ IH]; intros s Hs.
  assert (x = 0 ∨ 0 < x)%N as [->|?] by lia.
  - by rewrite pretty_N_go_0.
  - rewrite pretty_N_go_step by done. apply IH.
    { by apply N.div_lt. }
    rewrite chars_cons, not_elem_of_cons. split; [|done].
    intros E. by apply (Hc (x `mod` 10)%N).
Qed.

(** [str(i)] holds digits and a sign only. *)
Lemma str_avoids (c : ascii) (i : Z) :
  (∀ d, pretty_N_char d ≠ c) → c ≠ "-"%char → c ∉ chars (Py.str i).
Proof.
  intros Hc Hm.
  assert (∀ x : N, c ∉ chars (pretty x)) as HN.
  { intros x. unfold pretty, pretty_N. case_decide.
    - simpl. rewrite not_elem_of_cons. split; [|apply not_elem_of_nil].
      intros E. by apply (Hc 0%N).
    - apply pretty_N_go_avoids; [done|apply not_elem_of_nil]. }
  unfold Py.str, pretty, pretty_Z. destruct i as [|x|x].
  - simpl. rewrite not_elem_of_cons. split; [|apply not_elem_of_nil].
    intros E. by apply (Hc 0%N).
  - apply HN.
  - rewrite chars_app. simpl. rewrite not_elem_of_cons. split; [done|].
    apply HN.
Qed.

Lemma str_no_dot (i : Z) : "."%char ∉ chars (Py.str i).
Proof.
  apply str_avoids; [|done].
  intros d. unfold pretty_N_char. by repeat case_match.
Qed.

Lemma jdl_name_fields sample i :
  jdl_name args sample i
  = year args +:+ String "_" (sample +:+ String "_" (Py.str i +:+ ".jdl")).
Proof.
  unfold jdl_name, job_name. by rewrite !string_app_assoc.
Qed.

Lemma job_name_fields sample i :
  job_name args sample i
  = year args +:+ String "_" (sample +:+ String "_" (Py.str i)).
Proof. done. Qed.

Lemma removelast_snoc {A} (l : list A) (x : A) : removelast (l ++ [x]) = l.
Proof. apply removelast_last. Qed.

Lemma jdl_name_index_text sample i :
  jdl_index_text (jdl_name args sample i) = Py.str i.
Proof.
  unfold jdl_index_text, jdl_name.
  assert (Py.drop_last 4 (job_name args sample i +:+ ".jdl")
          = job_name args sample i) as ->
    by apply (drop_last_app _ ".jdl").
  rewrite job_name_fields, !split_app.
  rewrite (split_no_sep _ (Py.str i)) by apply str_no_underscore.
  unfold Py.last. by rewrite app_assoc, last_last.
Qed.

Lemma jdl_name_matches sample sample' i :
  "_"%char ∉ chars (year args) →
  jdl_matches args sample' (jdl_name args sample i) = true ↔ sample' = sample.
Proof.
  intros Hy. unfold jdl_matches.
  rewrite jdl_name_fields, !split_app, (split_no_sep _ (year args)) by done.
  rewrite (split_no_sep _ (Py.str i +:+ ".jdl")).
  2:{ rewrite chars_app, not_elem_of_app. split; [apply str_no_underscore|].
      apply (bool_decide_unpack _). by vm_compute. }
  unfold Py.first, Py.middle. simpl hd. simpl tl.
  rewrite removelast_snoc, (join_split "_" sample).
  rewrite andb_true_iff, !bool_decide_eq_true. intuition congruence.
Qed.

(** X1. The name written for the directive of job [i] of a sample is
    read back: it passes the [".jdl"] filter, it is counted for that
    sample and for no other, and the text given to [int] is [str(i)].
    The year must hold no underscore; the sample may. *)
Theorem directive_name_decodes sample i :
  "_"%char ∉ chars (year args) →
  Py.endswith (jdl_name args sample i) ".jdl" = true
  ∧ jdl_index_text (jdl_name args sample i) = Py.str i
  ∧ ∀ sample', jdl_matches args sample' (jdl_name args sample i) = true
               ↔ sample' = sample.
Proof.
  intros Hy. split_and!.
  - apply endswith_app.
  - apply jdl_name_index_text.
  - intros sample'. by apply jdl_name_matches.
Qed.

(** X2. A directive name that is counted for a sample has the shape
    [year_sample_text.jdl], where [text] is what is given to [int]. *)
Theorem counted_directive_shape sample jdl :
  Py.endswith jdl ".jdl" = true →
  jdl_matches args sample jdl = true →
  sample ≠ EmptyString →
  jdl = year args +:+ "_" +:+ sample +:+ "_" +:+ jdl_index_text jdl +:+ ".jdl".
Proof.
  intros Hend [Hy Hs]%andb_true_iff Hne.
  apply bool_decide_eq_true in Hy, Hs.
  assert (Py.last (Py.split "_" jdl) = jdl_index_text jdl +:+ ".jdl") as Hlast.
  { rewrite (endswith_inv _ _ Hend) at 1. unfold jdl_index_text.
    apply last_split_app. apply (bool_decide_unpack _). by vm_compute. }
  pose proof (join_split "_" jdl) as Hjoin.
  pose proof (split_nonempty "_" jdl) as Hl.
  unfold Py.first, Py.middle, Py.last in *.
  destruct (Py.split "_" jdl) as [|a l]; [done|]. simpl in Hy, Hs. subst a.
  destruct (exists_last (l:=l)) as (m & z & ->).
  { intros ->. by simpl in Hs. }
  rewrite removelast_snoc in Hs.
  rewrite app_comm_cons, last_last in Hlast. subst z.
  assert (m ≠ []) as Hm. { intros ->. by simpl in Hs. }
  rewrite join_cons in Hjoin by (by destruct m).
  rewrite join_snoc, Hs in Hjoin by done.
  exact (eq_sym Hjoin).
Qed.

(** X5. The running jobs read from the lines of [running_jobs.txt] are
    the names [n] for which the line [n.sh], newline included, is in the
    file; every other line is left out. *)
Theorem running_job_lines (lines : list string) (name : string) :
  name ∈ running_of_lines lines ↔ name +:+ ".sh" +:+ newline ∈ lines.
Proof.
  unfold running_of_lines. rewrite list_elem_of_fmap. split.
  - intros (s & -> & [Hend Hs]%list_elem_of_filter).
    apply Is_true_true, endswith_inv in Hend.
    change (String.length (".sh" +:+ newline)) with 4%nat in Hend.
    by rewrite <-Hend.
  - intros Hs. exists (name +:+ ".sh" +:+ newline). split.
    + symmetry. apply (drop_last_app name (".sh" +:+ newline)).
    + apply list_elem_of_filter. split; [|done].
      apply Is_true_true. apply (endswith_app name (".sh" +:+ newline)).
Qed.

Lemma out_name_index_text prefix ext i :
  "."%char ∉ chars prefix →
  out_index_text (out_name prefix ext i) = Py.str i.
Proof.
  intros Hp. unfold out_index_text, out_name.
  replace (prefix +:+ "_" +:+ Py.str i +:+ "." +:+ ext)
    with ((prefix +:+ "_" +:+ Py.str i) +:+ String "." ext)
    by (by rewrite !string_app_assoc).
  rewrite split_app, (split_no_sep "." (prefix +:+ "_" +:+ Py.str i)).
  2:{ rewrite !chars_app, !not_elem_of_app. split_and!; [done| |].
      - apply (bool_decide_unpack _). by vm_compute.
      - apply str_no_dot. }
  unfold Py.first. simpl hd.
  change (prefix +:+ "_" +:+ Py.str i) with (prefix +:+ String "_" (Py.str i)).
  rewrite split_app, (split_no_sep _ (Py.str i)) by apply str_no_underscore.
  unfold Py.last. by rewrite last_last.
Qed.

Variable int : string → option Z.

(** X11. A directory that holds the files [prefix_i.ext] for the
    indices [i] of a list is read as that list of indices, in the order
    of the listing.  The prefix must hold no dot, and [int] must read
    the indices written. *)
Theorem output_listing_decodes (fs : filesystem) dir prefix ext (l : list Z) :
  "."%char ∉ chars prefix →
  (∀ i, i ∈ l → int (Py.str i) = Some i) →
  fs dir = Some (Dir (out_name prefix ext <$> l)) →
  produced int fs dir = Some l.
Proof.
  intros Hp Hint Hdir. unfold produced, out_indices, listdir, mbind, M_bind.
  rewrite Hdir. simpl.
  assert (∀ σ, comprehension (λ out, py_int int (out_index_text out))
                 (out_name prefix ext <$> l) σ = (inr l, σ)) as Hc.
  { clear Hdir. induction l as [|i l IH]; intros σ; [done|]. simpl.
    unfold mbind, M_bind. rewrite py_int_run, out_name_index_text by done.
    rewrite Hint by left. rewrite IH; [done|].
    intros j Hj. apply Hint. by right. }
  by rewrite Hc.
Qed.

End Names.

(** ** Building the expected counts *)

Section Building.

Variable int : string → option Z.
Variable args : arguments.

Lemma comprehension_py_int_ok (f : string → string) l x σ :
  Forall2 (λ a i, int (f a) = Some i) l x →
  comprehension (λ a, py_int int (f a)) l σ = (inr x, σ).
Proof.
  induction 1 as [|a i l x Ha _ IH]; [done|]. simpl.
  unfold mbind, M_bind. by rewrite py_int_run, Ha, IH.
Qed.

Lemma comprehension_py_int_cases (f : string → string) l σ :
  (∃ x, Forall2 (λ a i, int (f a) = Some i) l x
        ∧ comprehension (λ a, py_int int (f a)) l σ = (inr x, σ))
  ∨ (∃ a, a ∈ l ∧ int (f a) = None
          ∧ comprehension (λ a, py_int int (f a)) l σ
            = (inl (ValueError (f a)), σ)).
Proof.
  induction l as [|a l IH].
  - left. exists []. by split; [constructor|].
  - simpl. unfold mbind, M_bind. rewrite py_int_run.
    destruct (int (f a)) as [i|] eqn:Ha.
    + destruct IH as [(x & Hx & ->)|(b & Hb & Hint & ->)].
      * left. exists (i :: x). by split; [constructor|].
      * right. exists b. split_and!; [by right|done..].
    + right. exists a. split_and!; [by left|done..].
Qed.

Lemma sample_indices_cases jdls sample σ :
  (∃ x, encoded_indices int args jdls sample x
        ∧ sample_indices int args jdls sample σ = (inr x, σ))
  ∨ (∃ jdl, jdl ∈ jdls ∧ jdl_matches args sample jdl = true
            ∧ int (jdl_index_text jdl) = None
            ∧ sample_indices int args jdls sample σ
              = (inl (ValueError (jdl_index_text jdl)), σ)).
Proof.
  unfold sample_indices, encoded_indices.
  destruct (comprehension_py_int_cases jdl_index_text
              (filter (λ jdl, jdl_matches args sample jdl) jdls) σ)
    as [(x & Hx & E)|(jdl & [Hm Hin]%list_elem_of_filter & Hint & E)].
  - left. by exists x.
  - right. exists jdl. split_and!; [done| |done..]. by apply Is_true_true.
Qed.

Lemma encoded_indices_readable jdls sample x jdl :
  encoded_indices int args jdls sample x →
  jdl ∈ jdls → jdl_matches args sample jdl = true →
  is_Some (int (jdl_index_text jdl)).
Proof.
  unfold encoded_indices. intros Hx Hin Hm.
  assert (jdl ∈ filter (λ jdl, jdl_matches args sample jdl) jdls) as Hf.
  { apply list_elem_of_filter. split; [by apply Is_true_true|done]. }
  clear -Hx Hf. induction Hx as [|a i l x Ha _ IHx].
  - by apply elem_of_nil in Hf.
  - apply elem_of_cons in Hf as [->|Hf]; [by rewrite Ha|by apply IHx].
Qed.

Lemma jdl_dict_loop_cases jdls samples d0 σ :
  (∃ d, jdl_dict_loop int args jdls d0 samples σ = (inr d, σ)
        ∧ ∀ s jdl, s ∈ samples → jdl ∈ jdls →
                   jdl_matches args s jdl = true →
                   is_Some (int (jdl_index_text jdl)))
  ∨ (∃ s jdl, s ∈ samples ∧ jdl ∈ jdls
              ∧ jdl_matches args s jdl = true
              ∧ int (jdl_index_text jdl) = None
              ∧ jdl_dict_loop int args jdls d0 samples σ
                = (inl (ValueError (jdl_index_text jdl)), σ)).
Proof.
  revert d0. induction samples as [|s samples IH]; intros d0.
  - left. exists d0. split; [done|]. by intros ? ? ?%elem_of_nil.
  - simpl. unfold jdl_dict_step. unfold mbind, M_bind.
    destruct (sample_indices_cases jdls s σ)
      as [(x & Hx & ->)|(jdl & Hin & Hm & Hint & ->)].
    + assert (∀ d1,
        (∃ d, jdl_dict_loop int args jdls d1 samples σ = (inr d, σ)
              ∧ ∀ s' jdl, s' ∈ s :: samples → jdl ∈ jdls →
                          jdl_matches args s' jdl = true →
                          is_Some (int (jdl_index_text jdl)))
        ∨ (∃ s' jdl, s' ∈ s :: samples ∧ jdl ∈ jdls
                     ∧ jdl_matches args s' jdl = true
                     ∧ int (jdl_index_text jdl) = None
                     ∧ jdl_dict_loop int args jdls d1 samples σ
                       = (inl (ValueError (jdl_index_text jdl)), σ)))
        as Hstep.
      { intros d1.
        destruct (IH d1)
          as [(d & -> & Hall)|(s' & jdl & Hs' & Hin & Hm & Hint & ->)].
        - left. exists d. split; [done|].
          intros s' jdl [->|Hs']%elem_of_cons Hin Hm; [|by eapply Hall].
          by eapply encoded_indices_readable.
        - right. exists s', jdl. split_and!; [by right|done..]. }
      destruct (0 <? length x)%nat; apply Hstep.
    + right. exists s, jdl. split_and!; [by left|done..].
Qed.

(** X4. Building the expected counts changes neither the result lists
    nor the trace, and ends in one of two ways: normally, when [int]
    reads the index text of every directive counted for a sample of the
    storage listing, or with [ValueError] on the text of such a
    directive.  Directives of other samples or years are never read. *)
Theorem expected_counts_or_ValueError samples jdls σ :
  (∃ d, build_jdl_dict int args samples jdls σ = (inr d, σ)
        ∧ ∀ s jdl, s ∈ samples → jdl ∈ jdls →
                   jdl_matches args s jdl = true →
                   is_Some (int (jdl_index_text jdl)))
  ∨ (∃ s jdl, s ∈ samples ∧ jdl ∈ jdls
              ∧ jdl_matches args s jdl = true
              ∧ int (jdl_index_text jdl) = None
              ∧ build_jdl_dict int args samples jdls σ
                = (inl (ValueError (jdl_index_text jdl)), σ)).
Proof. apply jdl_dict_loop_cases. Qed.

Lemma filter_flat_map {A B} (P : B → bool) (g : A → list B) (l : list A) :
  filter (λ y, P y) (flat_map g l) = flat_map (λ a, filter (λ y, P y) (g a)) l.
Proof.
  induction l as [|a l IH]; [done|]. simpl. by rewrite filter_app, IH.
Qed.

Lemma filter_none {A} (P : A → bool) (l : list A) :
  (∀ x, x ∈ l → P x = false) → filter (λ x, P x) l = [].
Proof.
  induction l as [|x l IH]; intros H; [done|].
  rewrite filter_cons, (H x) by left. simpl.
  apply IH. intros y Hy. apply H. by right.
Qed.

Lemma flat_map_all_nil {A B} (g : A → list B) (l : list A) :
  (∀ a, a ∈ l → g a = []) → flat_map g l = [].
Proof.
  induction l as [|a l IH]; intros H; [done|]. simpl.
  rewrite (H a) by left. apply IH. intros b Hb. apply H. by right.
Qed.

(** The directives of a batch that are counted for a sample are those
    written for it. *)
Lemma directives_of_sample batch sample :
  "_"%char ∉ chars (year args) →
  NoDup batch.*1 →
  filter (λ jdl, jdl_matches args sample jdl) (directives args batch)
  = match list_find (λ b, b.1 = sample) batch with
    | Some (_, b) => jdl_name args sample <$> Py.range b.2
    | None => []
    end.
Proof.
  intros Hy. unfold directives. rewrite filter_flat_map.
  induction batch as [|[s n] batch IH]; intros Hnd; [done|].
  apply NoDup_cons in Hnd as [Hs Hnd]. cbn [flat_map list_find].
  simpl fst. simpl snd. case_decide as E.
  - subst s. simpl. rewrite filter_all.
    2:{ intros jdl (i & -> & _)%list_elem_of_fmap. by apply jdl_name_matches. }
    rewrite flat_map_all_nil, app_nil_r; [done|].
    intros [s' n'] Hin. apply filter_none.
    intros jdl (i & -> & _)%list_elem_of_fmap. simpl.
    apply not_true_is_false. rewrite jdl_name_matches by done. intros <-.
    apply Hs. apply list_elem_of_fmap. by exists (sample, n').
  - rewrite filter_none.
    2:{ intros jdl (i & -> & _)%list_elem_of_fmap.
        apply not_true_is_false. rewrite jdl_name_matches by done. congruence. }
    rewrite IH by done. simpl.
    by destruct (list_find (λ b, b.1 = sample) batch) as [[k b]|].
Qed.

Lemma range_max (n : Z) : 0 < n → is_max (n - 1) (Py.range n).
Proof.
  intros Hn. split.
  - apply elem_of_range. lia.
  - intros i Hi%elem_of_range. lia.
Qed.

Lemma range_nil (n : Z) : n <= 0 → Py.range n = [].
Proof. intros Hn. unfold Py.range. by replace (Z.to_nat n) with 0%nat by lia. Qed.

Lemma encoded_indices_of_batch batch sample :
  "_"%char ∉ chars (year args) →
  NoDup batch.*1 →
  (∀ s n i, (s, n) ∈ batch → 0 <= i < n → int (Py.str i) = Some i) →
  encoded_indices int args (directives args batch) sample
    (match list_find (λ b, b.1 = sample) batch with
     | Some (_, b) => Py.range b.2
     | None => []
     end).
Proof.
  intros Hy Hnd Hint. unfold encoded_indices.
  rewrite directives_of_sample by done.
  destruct (list_find (λ b, b.1 = sample) batch) as [[k [s n]]|] eqn:E;
    [|constructor].
  apply list_find_Some in E as (Hk & Hs & _). simpl in *.
  apply list_elem_of_lookup_2 in Hk.
  apply Forall2_fmap_l, Forall_Forall2_diag, Forall_forall.
  intros i Hi%elem_of_range. simpl. rewrite jdl_name_index_text.
  by eapply Hint.
Qed.

(** X3. Submission and check agree on the counts.  From the directive
    names of a batch that holds, for each of its samples, the jobs [0]
    to [n - 1], the expected count built for a sample of the storage
    listing is [n] when it has jobs in the batch, and it gets no entry
    otherwise.  The year holds no underscore, [int] reads the indices
    written, and the counts fit [int64]. *)
Theorem counts_of_submitted_batch batch samples σ :
  "_"%char ∉ chars (year args) →
  NoDup batch.*1 →
  (∀ s n i, (s, n) ∈ batch → 0 <= i < n → int (Py.str i) = Some i) →
  (∀ s n, (s, n) ∈ batch → n <= Np.int64_max) →
  ∃ d,
    build_jdl_dict int args samples (directives args batch) σ = (inr d, σ)
    ∧ ∀ s, s ∈ samples →
        (∀ n, (s, n) ∈ batch → 0 < n → d !! s = Some (Np.Integer n))
        ∧ ((∀ n, (s, n) ∈ batch → n <= 0) → d !! s = None).
Proof.
  intros Hy Hnd Hint Hmax.
  destruct (jdl_dict_loop_cases (directives args batch) samples ∅ σ)
    as [(d & Hd & _)|(s & jdl & Hs & Hin & Hm & Hnone & _)].
  2:{ exfalso.
      pose proof (encoded_indices_of_batch batch s Hy Hnd Hint) as Hx.
      destruct (encoded_indices_readable _ _ _ _ Hx Hin Hm) as [? ?].
      congruence. }
  exists d. split; [done|]. intros s Hs.
  destruct (jdl_dict_loop_inr int args _ _ _ _ _ _ s Hd) as [_ H].
  destruct (H Hs) as (x & Hx & Hnil & Hcons).
  pose proof (encoded_indices_of_batch batch s Hy Hnd Hint) as Hx'.
  rewrite (encoded_indices_unique _ _ _ _ _ _ Hx Hx') in Hnil, Hcons.
  clear x Hx Hx'.
  assert (∀ n, (s, n) ∈ batch →
               list_find (λ b, b.1 = s) batch ≫= (λ kb, Some kb.2.2) = Some n)
    as Hfind.
  { intros n Hn.
    destruct (list_find (λ b, b.1 = s) batch) as [[k [s' n']]|] eqn:E.
    - apply list_find_Some in E as (Hk & Hs' & _). simpl in *. subst s'.
      f_equal. apply list_elem_of_lookup_2 in Hk.
      apply list_elem_of_lookup_1 in Hn as [k' Hk'].
      apply list_elem_of_lookup_1 in Hk as [k'' Hk''].
      assert (k' = k'').
      { eapply NoDup_lookup; [exact Hnd|..];
          rewrite list_lookup_fmap; [by rewrite Hk'|by rewrite Hk'']. }
      subst. congruence.
    - exfalso. eapply list_find_None in E. rewrite Forall_forall in E.
      by apply (E (s, n)). }
  split.
  - intros n Hn Hpos. specialize (Hfind n Hn).
    destruct (list_find (λ b, b.1 = s) batch) as [[k [s' n']]|];
      simpl in Hfind; [|done]. injection Hfind as ->. simpl in Hcons.
    assert (Py.range n ≠ []) as Hne.
    { intros E. pose proof (range_max n Hpos) as [Hin _].
      rewrite E in Hin. by apply elem_of_nil in Hin. }
    rewrite Hcons by done. f_equal.
    rewrite (is_max_unique _ _ (n - 1) (np_sort_last_max _ Hne)
               (range_max n Hpos)).
    rewrite (np_add_max _ _ (range_max n Hpos)); [f_equal; lia|].
    specialize (Hmax s n Hn).
    unfold Np.int64_min, Np.int64_max in *. lia.
  - intros Hle. rewrite Hnil; [apply lookup_empty|].
    destruct (list_find (λ b, b.1 = s) batch) as [[k [s' n']]|] eqn:E; [|done].
    apply list_find_Some in E as (Hk & Hs' & _). simpl in *. subst s'.
    apply list_elem_of_lookup_2 in Hk. apply range_nil. by eapply Hle.
Qed.

End Building.

(** ** More on the reconciliation loop *)

Section Loop.

Variable int : string → option Z.
Variable args : arguments.
Variable fs : filesystem.
Variable jdl_dict : gmap string Np.scalar.
Variable running_jobs : list string.

Local Abbreviation check_sample := (check_sample int args fs jdl_dict running_jobs).
Local Abbreviation check_pickles := (check_pickles int args fs jdl_dict running_jobs).
Local Abbreviation reconcile := (reconcile int args fs jdl_dict running_jobs).
Local Abbreviation sample_reports := (sample_reports int args fs jdl_dict running_jobs).
Local Abbreviation produced := (produced int fs).

Lemma err_file_inj (s1 s2 : string) (i1 i2 : Z) :
  err_file args s1 i1 = err_file args s2 i2 → s1 = s2 ∧ i1 = i2.
Proof.
  unfold err_file. intros H.
  apply string_app_inv_head, string_app_inv_head in H.
  apply string_app_inv_tail in H. by apply job_name_inj in H.
Qed.

Lemma sorted_lt_NoDup (l : list Z) : StronglySorted Z.lt l → NoDup l.
Proof.
  induction 1 as [|x l _ IH Hx]; constructor; [|done].
  intros Hin. rewrite Forall_forall in Hx. specialize (Hx x Hin). lia.
Qed.

Lemma NoDup_flat_map {A B} (g : A → list B) (l : list A) :
  NoDup l →
  (∀ a, a ∈ l → NoDup (g a)) →
  (∀ a a' x, a ∈ l → a' ∈ l → x ∈ g a → x ∈ g a' → a = a') →
  NoDup (flat_map g l).
Proof.
  induction 1 as [|a l Ha Hl IH]; intros Hg Hdisj; [constructor|]. simpl.
  apply NoDup_app. split_and!.
  - apply Hg. left.
  - intros x Hx Hx'. apply list_elem_of_In, in_flat_map in Hx' as (a' & Ha' & Hx').
    apply list_elem_of_In in Ha', Hx'.
    assert (a = a') as <-.
    { eapply Hdisj; [left|by right|done..]. }
    done.
  - apply IH.
    + intros a' Ha'. apply Hg. by right.
    + intros a1 a2 x H1 H2. apply Hdisj; by right.
Qed.

Lemma NoDup_prefix {A} (l1 l2 : list A) :
  l1 `prefix_of` l2 → NoDup l2 → NoDup l1.
Proof. intros [k ->] H. by apply NoDup_app in H as [? _]. Qed.

(** X9. When the samples of the storage listing are distinct, no
    directive and no log is listed twice: a job is reported at most
    once, whether or not the run ends normally. *)
Theorem no_job_reported_twice samples σ :
  NoDup samples →
  missing_files σ = [] →
  err_files σ = [] →
  NoDup (missing_files (reconcile samples σ).2)
  ∧ NoDup (err_files (reconcile samples σ).2).
Proof.
  intros Hnd Hm He.
  destruct (reconcile_run int args fs jdl_dict running_jobs samples σ)
    as [t ->]. simpl. rewrite Hm, He. simpl.
  pose proof (NoDup_prefix _ _
                (visited_prefix int args fs jdl_dict running_jobs samples) Hnd)
    as Hv.
  split; apply NoDup_flat_map; try done.
  - intros s _. apply NoDup_fmap_2_strong.
    + intros i j _ _ E. by apply jdl_file_inj in E as [_ ?].
    + apply sorted_lt_NoDup, sample_reports_sorted.
  - intros s s' f _ _ (i & -> & _)%list_elem_of_fmap
      (j & E & _)%list_elem_of_fmap.
    by apply jdl_file_inj in E as [? _].
  - intros s _. apply NoDup_fmap_2_strong.
    + intros i j _ _ E. by apply err_file_inj in E as [_ ?].
    + apply sorted_lt_NoDup, sample_reports_sorted.
  - intros s s' f _ _ (i & -> & _)%list_elem_of_fmap
      (j & E & _)%list_elem_of_fmap.
    by apply err_file_inj in E as [? _].
Qed.

Lemma sample_reports_incomplete sample i :
  i ∈ sample_reports sample → ¬ complete int args fs sample i.
Proof.
  unfold CheckJobs.sample_reports, complete, produced_primary,
    produced_secondary, rerun.
  rewrite <-not_trigger_true.
  destruct (jdl_dict !! sample) as [[n|]|]; [|by intros ?%elem_of_nil..].
  destruct (not_trigger args) eqn:Ht.
  - destruct (path_exists fs (parquet_dir args sample)) eqn:Hq.
    + destruct (produced (parquet_dir args sample)) as [oq|];
        [|by intros ?%elem_of_nil].
      destruct (produced (pickles_dir args sample)) as [op|];
        [|by intros ?%elem_of_nil].
      simpl. rewrite list_elem_of_filter, <-!elem_true.
      destruct (Py.elem i op), (Py.elem i oq); simpl; intuition discriminate.
    + rewrite (produced_absent _ _ _ Hq). simpl. intros _ [_ H].
      specialize (H eq_refl). by apply elem_of_nil in H.
  - destruct (produced (pickles_dir args sample)) as [op|];
      [|by intros ?%elem_of_nil].
    simpl. rewrite list_elem_of_filter, <-!elem_true.
    destruct (Py.elem i op); simpl; intuition discriminate.
Qed.

(** X10. Every file in [missing_files] is the directive of a job that
    is expected and incomplete: its sample is in the storage listing and
    has an expected count, its index is below that count, and one of its
    required outputs is not listed.  This holds for every run of the
    loop, also one that ends with an exception. *)
Theorem reports_are_sound samples σ f :
  missing_files σ = [] →
  f ∈ missing_files (reconcile samples σ).2 →
  ∃ sample i n,
    f = jdl_file args sample i
    ∧ sample ∈ samples
    ∧ jdl_dict !! sample = Some (Np.Integer n)
    ∧ 0 <= i < n
    ∧ ¬ complete int args fs sample i.
Proof.
  intros Hσ [Hf|(s & i & Hs & Hi & ->)]%elem_of_reconcile_missing.
  - rewrite Hσ in Hf. by apply elem_of_nil in Hf.
  - destruct (sample_reports_range _ _ _ _ _ _ _ Hi) as (n & Hn & Hrange).
    exists s, i, n. repeat (split; [done|]).
    by apply sample_reports_incomplete.
Qed.

Lemma out_indices_exception dir σ e σ' :
  out_indices int fs dir σ = (inl e, σ') →
  (e = FileNotFoundError dir ∧ fs dir = None)
  ∨ (e = NotADirectoryError dir ∧ fs dir = Some File)
  ∨ (∃ entries out,
        fs dir = Some (Dir entries) ∧ out ∈ entries
        ∧ e = ValueError (out_index_text out)
        ∧ int (out_index_text out) = None).
Proof.
  unfold out_indices, listdir, mbind, M_bind.
  destruct (fs dir) as [[|entries]|]; simpl.
  - intros [= <- <-]. right; left. done.
  - destruct (comprehension_py_int_cases int out_index_text entries σ)
      as [(x & _ & ->)|(out & Hout & Hint & ->)]; [done|].
    intros [= <- <-]. right; right. by exists entries, out.
  - intros [= <- <-]. by left.
Qed.


Lemma out_indices_loop_exception sample dir σ e σ' :
  dir = parquet_dir args sample ∨ dir = pickles_dir args sample →
  path_exists fs dir = true →
  out_indices int fs dir σ = (inl e, σ') →
  loop_exception int args fs jdl_dict [sample] e.
Proof.
  intros Hdir Hex [[-> Hfs]|[[-> Hfs]|(entries & out & Hfs & Hout & -> & Hint)]]
    %out_indices_exception.
  - unfold path_exists in Hex. by rewrite Hfs in Hex.
  - simpl. exists sample. split_and!; [left|done..].
  - simpl. exists sample, dir, out, entries. split_and!; [left|done..].
Qed.

Lemma check_pickles_exception sample outs_parquet σ e :
  (check_pickles sample outs_parquet σ).1 = inl e →
  loop_exception int args fs jdl_dict [sample] e.
Proof.
  unfold CheckJobs.check_pickles.
  destruct (path_exists fs (pickles_dir args sample)) eqn:Hex; simpl; [|done].
  unfold mbind, M_bind.
  destruct (out_indices int fs (pickles_dir args sample) σ)
    as [[e'|op] σ1] eqn:E; simpl.
  - intros [= <-]. eapply out_indices_loop_exception; [by right|done..].
  - destruct (when _ _ σ1) as [[e'|[]] σ2] eqn:Ew.
    { unfold when in Ew. by destruct (negb (not_trigger args)). }
    unfold jdl_dict_get. destruct (jdl_dict !! sample) as [[n|]|] eqn:Hn; simpl.
    + by destruct (check_loop args running_jobs sample op outs_parquet
                     (Py.range n) σ2) as [t ->].
    + intros [= <-]. simpl. split; [done|]. exists sample. split; [left|done].
    + intros [= <-]. simpl. split; [left|done].
Qed.

Lemma check_sample_exception sample σ e :
  (check_sample sample σ).1 = inl e →
  loop_exception int args fs jdl_dict [sample] e.
Proof.
  unfold CheckJobs.check_sample, mbind, M_bind, print, emit. simpl.
  destruct (not_trigger args); [|apply check_pickles_exception].
  destruct (path_exists fs (parquet_dir args sample)) eqn:Hex; simpl.
  - match goal with
    | |- context [out_indices int fs _ ?σ1] =>
        destruct (out_indices int fs (parquet_dir args sample) σ1)
          as [[e'|oq] σ2] eqn:E; simpl
    end.
    + intros [= <-]. eapply out_indices_loop_exception; [by left|done..].
    + apply check_pickles_exception.
  - destruct (jdl_dict !! sample) as [[n|]|] eqn:Hn; simpl; [| |done].
    + by rewrite no_parquet_loop.
    + intros [= <-]. simpl. split; [done|]. exists sample. split; [left|done].
Qed.

(** A [TypeError] of the loop comes from the [range] of a sample whose
    expected count is a [np.float64]. *)
Lemma reconcile_TypeError samples σ message :
  (reconcile samples σ).1 = inl (TypeError message) →
  message = float64_not_integer
  ∧ ∃ k, k ∈ samples ∧ jdl_dict !! k = Some Np.Float64.
Proof.
  revert σ. induction samples as [|s samples IH]; intros σ; [done|].
  rewrite reconcile_cons.
  destruct (check_sample s σ) as [[e'|[]] σ1] eqn:E; simpl.
  - intros [= ->].
    destruct (check_sample_exception s σ (TypeError message))
      as (Hm & k & ->%list_elem_of_singleton & Hk); [by rewrite E|].
    split; [done|]. exists s. split; [left|done].
  - intros H. destruct (IH _ H) as (Hm & k & Hk & Hf).
    split; [done|]. exists k. split; [by right|done].
Qed.


End Loop.

(** ** Commands and summary of the whole script *)

Section WholeScript.

Variable int : string → option Z.
Variable args : arguments.
Variable fs : filesystem.

Lemma commands_app (t1 t2 : list event) :
  commands (t1 ++ t2) = commands t1 ++ commands t2.
Proof. apply omap_app. Qed.

Lemma resubmissions_app (l1 l2 : list string) :
  resubmissions args (l1 ++ l2)
  = resubmissions args l1 ++ resubmissions args l2.
Proof.
  unfold resubmissions. destruct (submit_missing args); [|done].
  apply fmap_app.
Qed.

Lemma resubmissions_nil : resubmissions args [] = [].
Proof. unfold resubmissions. by destruct (submit_missing args). Qed.

Lemma resubmits_refl σ : resubmits args σ σ.
Proof. exists []. by rewrite resubmissions_nil, !app_nil_r. Qed.

Lemma resubmits_trans σ1 σ2 σ3 :
  resubmits args σ1 σ2 → resubmits args σ2 σ3 → resubmits args σ1 σ3.
Proof.
  intros (n1 & M1 & C1) (n2 & M2 & C2). exists (n1 ++ n2).
  rewrite M2, M1, C2, C1, resubmissions_app. by rewrite !app_assoc.
Qed.

Lemma mirrors_ret {A} (a : A) : mirrors args (mret a).
Proof. intros σ. apply resubmits_refl. Qed.

Lemma mirrors_raise {A} (e : exn) : mirrors args (@raise A e).
Proof. intros σ. apply resubmits_refl. Qed.

Lemma mirrors_print line : mirrors args (print line).
Proof.
  intros σ. exists []. simpl.
  by rewrite commands_app, resubmissions_nil, !app_nil_r.
Qed.

Lemma mirrors_print_red line : mirrors args (print_red line).
Proof.
  intros σ. exists []. simpl.
  by rewrite commands_app, resubmissions_nil, !app_nil_r.
Qed.

Lemma mirrors_bind {A B} (m : M A) (k : A → M B) :
  mirrors args m → (∀ a, mirrors args (k a)) → mirrors args (m ≫= k).
Proof.
  intros Hm Hk σ. unfold mbind, M_bind. specialize (Hm σ).
  destruct (m σ) as [[e|a] σ']; simpl in *; [done|].
  eapply resubmits_trans; [done|]. apply Hk.
Qed.

Lemma mirrors_when b (m : M unit) : mirrors args m → mirrors args (when b m).
Proof. destruct b; simpl; auto using mirrors_ret. Qed.

Lemma mirrors_for {A} (l : list A) (body : A → M unit) :
  (∀ x, mirrors args (body x)) → mirrors args (for_ l body).
Proof.
  intros Hbody. induction l as [|x l IH]; simpl.
  - apply mirrors_ret.
  - apply mirrors_bind; auto.
Qed.

Lemma mirrors_out_indices dir : mirrors args (out_indices int fs dir).
Proof.
  intros σ. rewrite out_indices_state. simpl. apply resubmits_refl.
Qed.

(** The report of one job: two appends, then the resubmission if it is
    asked for. *)
Lemma mirrors_report f g :
  mirrors args
    (missing_files_append f;; err_files_append g;;
     when (submit_missing args) (os_system ("condor_submit " +:+ f))).
Proof.
  intros σ. exists [f]. unfold resubmissions, mbind, M_bind, when,
    missing_files_append, err_files_append, os_system, emit. simpl.
  destruct (submit_missing args); simpl.
  - by rewrite commands_app.
  - by rewrite app_nil_r.
Qed.

Lemma mirrors_no_parquet_body running_jobs sample i :
  mirrors args (no_parquet_body args running_jobs sample i).
Proof.
  unfold no_parquet_body. destruct (is_running args running_jobs sample i).
  - apply mirrors_print.
  - apply mirrors_bind; [apply mirrors_print|]. intros _. apply mirrors_report.
Qed.

Lemma mirrors_check_body running_jobs sample op oq i :
  mirrors args (check_body args running_jobs sample op oq i).
Proof.
  unfold check_body.
  destruct (negb (Py.elem i op) || (not_trigger args && negb (Py.elem i oq)));
    [|apply mirrors_ret].
  destruct (is_running args running_jobs sample i); [apply mirrors_print|].
  apply mirrors_bind; [apply mirrors_when, mirrors_print_red|]. intros _.
  apply mirrors_bind; [apply mirrors_when, mirrors_print_red|]. intros _.
  apply mirrors_report.
Qed.

Lemma mirrors_range_ n : mirrors args (range_ n).
Proof. destruct n; [apply mirrors_ret|apply mirrors_raise]. Qed.

Lemma mirrors_check_pickles jdl_dict running_jobs sample oq :
  mirrors args (check_pickles int args fs jdl_dict running_jobs sample oq).
Proof.
  unfold check_pickles.
  destruct (negb (path_exists fs (pickles_dir args sample)));
    [apply mirrors_print_red|].
  apply mirrors_bind; [apply mirrors_out_indices|]. intros op.
  apply mirrors_bind; [apply mirrors_when, mirrors_print|]. intros _.
  apply mirrors_bind.
  { unfold jdl_dict_get. destruct (jdl_dict !! sample);
      [apply mirrors_ret|apply mirrors_raise]. }
  intros n. apply mirrors_bind; [apply mirrors_range_|]. intros indices.
  apply mirrors_for. intros i. apply mirrors_check_body.
Qed.

Lemma mirrors_check_sample jdl_dict running_jobs sample :
  mirrors args (check_sample int args fs jdl_dict running_jobs sample).
Proof.
  unfold check_sample.
  apply mirrors_bind; [apply mirrors_print|]. intros _.
  destruct (not_trigger args); [|apply mirrors_check_pickles].
  destruct (negb (path_exists fs (parquet_dir args sample))).
  - apply mirrors_bind; [apply mirrors_print_red|]. intros _.
    destruct (jdl_dict !! sample) as [n|]; [|apply mirrors_ret].
    apply mirrors_bind; [apply mirrors_range_|]. intros indices.
    apply mirrors_for. intros i. apply mirrors_no_parquet_body.
  - apply mirrors_bind; [apply mirrors_out_indices|]. intros oq.
    apply mirrors_bind; [apply mirrors_print|]. intros _.
    apply mirrors_check_pickles.
Qed.

Lemma mirrors_reconcile jdl_dict running_jobs samples :
  mirrors args (reconcile int args fs jdl_dict running_jobs samples).
Proof. apply mirrors_for. intros s. apply mirrors_check_sample. Qed.

Lemma for_print (l : list string) σ :
  for_ l print σ
  = (inr tt, State (missing_files σ) (err_files σ) (trace σ ++ (Print <$> l))).
Proof.
  revert σ. induction l as [|line l IH]; intros σ; simpl.
  - destruct σ. simpl. by rewrite app_nil_r.
  - unfold mbind, M_bind, print, emit. simpl. rewrite IH. simpl.
    by rewrite <-app_assoc.
Qed.

(** Lines 159-165 print the summary and change nothing else. *)
Lemma print_summary_run σ :
  print_summary σ
  = (inr tt,
     State (missing_files σ) (err_files σ)
           (trace σ
              ++ (Print <$> summary_lines (missing_files σ) (err_files σ)))).
Proof.
  unfold print_summary, summary_lines, mbind, M_bind, print, emit. simpl.
  rewrite for_print. simpl. rewrite for_print. simpl.
  rewrite fmap_app. simpl. by rewrite <-!app_assoc.
Qed.

Lemma commands_print (l : list string) : commands (Print <$> l) = [].
Proof. by induction l. Qed.

Lemma mirrors_print_summary : mirrors args print_summary.
Proof.
  intros σ. rewrite print_summary_run. exists [].
  split; [simpl; by rewrite app_nil_r|]. cbn [snd trace].
  by rewrite commands_app, commands_print, resubmissions_nil, !app_nil_r.
Qed.

Lemma listdir_run p σ :
  listdir fs p σ
  = (match fs p with
     | Some (Dir entries) => inr entries
     | Some File => inl (NotADirectoryError p)
     | None => inl (FileNotFoundError p)
     end, σ).
Proof. unfold listdir. by destruct (fs p) as [[|entries]|]. Qed.

Lemma build_jdl_dict_state samples jdls σ :
  (build_jdl_dict int args samples jdls σ).2 = σ.
Proof.
  destruct (jdl_dict_loop_cases int args jdls samples ∅ σ)
    as [(d & E & _)|(s & jdl & _ & _ & _ & _ & E)];
    unfold build_jdl_dict; by rewrite E.
Qed.

Lemma no_command {A} (r : exn + A) :
  commands (trace (r, initial).2)
  = [] ++ resubmissions args (missing_files (r, initial).2).
Proof. simpl. by rewrite resubmissions_nil. Qed.

(** X6. The commands the script runs are, after the [condor_q] query
    when running jobs are checked, the resubmissions of the files of
    [missing_files], one for each and in the same order, when
    [--submit-missing] is given; otherwise no directive is submitted.
    This holds for every run, also one that ends with an exception. *)
Theorem commands_mirror_reports condor_q_lines :
  let σ := (main int args fs condor_q_lines initial).2 in
  ∃ query,
    commands (trace σ) = query ++ resubmissions args (missing_files σ)
    ∧ (query = []
       ∨ (check_running args = true
          ∧ query = [ "condor_q | awk '{print $9}' > running_jobs.txt" ])).
Proof.
  cbv zeta. unfold main, mbind, M_bind. rewrite ?listdir_run.
  destruct (fs (xrddir args)) as [[|samples]|];
    try (exists []; split; [apply no_command|by left]).
  rewrite ?listdir_run.
  destruct (fs (condor_dir args)) as [[|names]|];
    try (exists []; split; [apply no_command|by left]).
  pose proof (build_jdl_dict_state samples
                (filter (λ jdl, Py.endswith jdl ".jdl") names) initial) as Hb.
  destruct (build_jdl_dict int args samples _ initial) as [[e|jdl_dict] σ0];
    simpl in Hb; subst σ0;
    [exists []; split; [apply no_command|by left]|].
  set (query := if check_running args
                then [ "condor_q | awk '{print $9}' > running_jobs.txt" ]
                else []).
  set (running := if check_running args
                  then running_of_lines condor_q_lines else []).
  assert (read_running_jobs args condor_q_lines initial
          = (inr running, State [] [] (System <$> query))) as ->.
  { unfold read_running_jobs, running, query.
    by destruct (check_running args). }
  assert (∀ σ1, missing_files σ1 = [] → commands (trace σ1) = query →
                ∀ σ2, resubmits args σ1 σ2 →
                commands (trace σ2)
                = query ++ resubmissions args (missing_files σ2)) as Hq.
  { intros σ1 Hm Hc σ2 (new & -> & ->). by rewrite Hm, Hc. }
  exists query. split.
  - apply (Hq (State [] [] (System <$> query))).
    + done.
    + unfold query. by destruct (check_running args).
    + pose proof (mirrors_reconcile jdl_dict running samples
                    (State [] [] (System <$> query))) as H1.
      destruct (reconcile int args fs jdl_dict running samples _)
        as [[e|[]] σ2]; simpl in *; [done|].
      eapply resubmits_trans; [done|]. apply mirrors_print_summary.
  - unfold query. destruct (check_running args); [by right|by left].
Qed.

(** X7. A run that ends normally ends with the summary of its two
    final result lists: the number of files to re-run, which is the
    number of directive lines that follow, the directives, the header of
    the error files and the logs. *)
Theorem summary_ends_normal_run condor_q_lines σ :
  main int args fs condor_q_lines initial = (inr tt, σ) →
  ∃ t,
    trace σ
    = t ++ (Print <$> summary_lines (missing_files σ) (err_files σ)).
Proof.
  unfold main, mbind, M_bind. rewrite ?listdir_run.
  destruct (fs (xrddir args)) as [[|samples]|]; try done.
  rewrite ?listdir_run. destruct (fs (condor_dir args)) as [[|names]|]; try done.
  destruct (build_jdl_dict int args samples _ initial) as [[e|jdl_dict] σ0];
    [done|].
  destruct (read_running_jobs args condor_q_lines σ0) as [[e|running] σ1];
    [done|].
  destruct (reconcile int args fs jdl_dict running samples σ1)
    as [[e|[]] σ2]; [done|].
  rewrite print_summary_run. intros [= <-]. cbn [trace missing_files err_files].
  by eexists.
Qed.

(** X8. When the storage directory or the directive directory cannot
    be listed, or when [int] does not read the index text of a directive
    counted for a listed sample, the script ends with an exception
    before anything is printed, queried or submitted. *)
Theorem failure_before_any_output condor_q_lines :
  (∀ l, fs (xrddir args) ≠ Some (Dir l))
  ∨ (∀ l, fs (condor_dir args) ≠ Some (Dir l))
  ∨ (∃ samples names sample jdl,
        fs (xrddir args) = Some (Dir samples)
        ∧ fs (condor_dir args) = Some (Dir names)
        ∧ sample ∈ samples ∧ jdl ∈ names
        ∧ Py.endswith jdl ".jdl" = true
        ∧ jdl_matches args sample jdl = true
        ∧ int (jdl_index_text jdl) = None) →
  ∃ e, main int args fs condor_q_lines initial = (inl e, initial).
Proof.
  unfold main, mbind, M_bind. rewrite ?listdir_run.
  intros [Hx|[Hc|(samples & names & s & jdl & Hx & Hc & Hs & Hj & Hend & Hm & Hi)]].
  - destruct (fs (xrddir args)) as [[|l]|]; [by eexists| |by eexists].
    by destruct (Hx l).
  - destruct (fs (xrddir args)) as [[|l]|]; [by eexists| |by eexists].
    rewrite ?listdir_run.
    destruct (fs (condor_dir args)) as [[|l']|]; [by eexists| |by eexists].
    by destruct (Hc l').
  - rewrite Hx, ?listdir_run, Hc.
    destruct (jdl_dict_loop_cases int args
                (filter (λ jdl, Py.endswith jdl ".jdl") names) samples ∅
                initial)
      as [(d & _ & Hall)|(s' & jdl' & _ & _ & _ & _ & E)].
    + destruct (Hall s jdl) as [z Hz]; [done| |done|congruence].
      apply list_elem_of_filter. split; [by apply Is_true_true|done].
    + unfold build_jdl_dict. rewrite E. by eexists.
Qed.

(** Building the expected counts raises [ValueError] only. *)
Lemma build_jdl_dict_exception samples jdls σ e :
  (build_jdl_dict int args samples jdls σ).1 = inl e →
  ∃ text, e = ValueError text.
Proof.
  destruct (jdl_dict_loop_cases int args jdls samples ∅ σ)
    as [(d & E & _)|(s & jdl & _ & _ & _ & _ & E)];
    unfold build_jdl_dict; rewrite E; simpl; [done|].
  intros [= <-]. by eexists.
Qed.

(** X15. The script ends with [TypeError] only when the directives
    counted for a sample of the storage listing encode an index beyond
    the greatest [int64] (and within [uint64]): only then can the
    expected count be a [np.float64], which [range] refuses.  Where
    every index fits [int64], no run ends with [TypeError]. *)
Theorem TypeError_needs_index_beyond_int64 condor_q_lines message :
  (main int args fs condor_q_lines initial).1 = inl (TypeError message) →
  message = float64_not_integer
  ∧ ∃ samples names sample x i,
      fs (xrddir args) = Some (Dir samples)
      ∧ fs (condor_dir args) = Some (Dir names)
      ∧ sample ∈ samples
      ∧ encoded_indices int args
          (filter (λ jdl, Py.endswith jdl ".jdl") names) sample x
      ∧ i ∈ x ∧ Np.int64_max < i <= Np.uint64_max.
Proof.
  unfold main, mbind, M_bind. rewrite ?listdir_run.
  destruct (fs (xrddir args)) as [[|samples]|]; try done.
  rewrite ?listdir_run. destruct (fs (condor_dir args)) as [[|names]|]; try done.
  set (jdls := filter (λ jdl, Py.endswith jdl ".jdl") names).
  pose proof (build_jdl_dict_exception samples jdls initial) as Hb.
  destruct (build_jdl_dict int args samples jdls initial)
    as [[e|jdl_dict] σ0] eqn:Hd; simpl.
  { intros [= ->]. by destruct (Hb _ eq_refl). }
  clear Hb.
  assert (∃ running σ1, read_running_jobs args condor_q_lines σ0
                        = (inr running, σ1)) as (running & σ1 & ->).
  { unfold read_running_jobs. destruct (check_running args); by eexists _, _. }
  pose proof (reconcile_TypeError int args fs jdl_dict running samples σ1)
    as Hr.
  destruct (reconcile int args fs jdl_dict running samples σ1)
    as [[e|[]] σ2]; simpl.
  2:{ by rewrite print_summary_run. }
  intros [= ->]. destruct (Hr _ eq_refl) as (Hm & k & Hk & Hfloat).
  split; [done|].
  destruct (jdl_dict_loop_inr int args _ _ _ _ _ _ k Hd) as [_ H].
  destruct (H Hk) as (x & Hx & Hnil & Hcons).
  destruct (decide (x = [])) as [->|Hne].
  { rewrite Hnil, lookup_empty in Hfloat by done. done. }
  rewrite Hcons in Hfloat by done. injection Hfloat as Hfloat.
  apply np_add_float64 in Hfloat.
  destruct (array_dtype_float64 x Hfloat Hne) as [(i & Hi & Hi') _].
  by exists samples, names, k, x, i.
Qed.

End WholeScript.

(** ** Background keys for plotting *)

Section CombineHbb.

Import Plotting.

Variable Hist : Type.
Variable combine_hbb_bgs : Hist → Hist.
Variable hbb_bg_keys : list string.

Local Abbreviation _combine_hbb_bgs :=
  (_combine_hbb_bgs Hist combine_hbb_bgs hbb_bg_keys).

Lemma no_common_key (bg_keys : list string) :
  size (list_to_set bg_keys ∩ list_to_set hbb_bg_keys : gset string) = 0%nat
  ↔ ∀ k, k ∈ bg_keys → k ∉ hbb_bg_keys.
Proof.
  rewrite size_empty_iff. split.
  - intros H k Hk Hk'. apply (not_elem_of_empty (C:=gset string) k), H.
    rewrite elem_of_intersection, !elem_of_list_to_set. done.
  - intros H k. split; [|by intros ?%not_elem_of_empty].
    rewrite elem_of_intersection, !elem_of_list_to_set.
    intros [Hk Hk']. by destruct (H k).
Qed.

Lemma combine_without_hbb hists bg_keys :
  (∀ k, k ∈ bg_keys → k ∉ hbb_bg_keys) →
  _combine_hbb_bgs hists bg_keys = (hists, bg_keys).
Proof.
  intros H. unfold Plotting._combine_hbb_bgs.
  by rewrite decide_True by by apply no_common_key.
Qed.

Lemma combined_keys_aux hists bg_keys k :
  k ∈ (_combine_hbb_bgs hists bg_keys).2
  ↔ (k ∈ bg_keys ∧ k ∉ hbb_bg_keys)
    ∨ (k = "Hbb" ∧ ∃ k', k' ∈ bg_keys ∧ k' ∈ hbb_bg_keys).
Proof.
  unfold Plotting._combine_hbb_bgs. case_decide as Hnone.
  - rewrite no_common_key in Hnone. simpl. split.
    + intros Hk. left. split; [done|by apply Hnone].
    + intros [[Hk _]|[_ (k' & Hk' & Hh)]]; [done|]. by destruct (Hnone k').
  - assert (∃ k', k' ∈ bg_keys ∧ k' ∈ hbb_bg_keys) as Hsome.
    { destruct (decide (Exists (λ k', k' ∈ hbb_bg_keys) bg_keys)) as [He|He].
      - apply Exists_exists in He as (k' & ? & ?). by exists k'.
      - destruct Hnone. apply no_common_key. intros k' Hk' Hh.
        apply He, Exists_exists. by exists k'. }
    simpl. case_decide as Hhbb.
    + rewrite list_elem_of_filter. split; [tauto|].
      intros [[? ?]|[-> _]]; [done|]. by apply list_elem_of_filter in Hhbb.
    + rewrite elem_of_app, list_elem_of_filter, list_elem_of_singleton.
      split; [|tauto]. intros [[? ?]|Hk]; [by left|by right].
Qed.

(** X13. The keys returned are the background keys that are not Higgs
    backgrounds, together with ["Hbb"] when one of the background keys
    is a Higgs background. *)
Theorem combined_keys hists bg_keys k :
  k ∈ (_combine_hbb_bgs hists bg_keys).2
  ↔ (k ∈ bg_keys ∧ k ∉ hbb_bg_keys)
    ∨ (k = "Hbb" ∧ ∃ k', k' ∈ bg_keys ∧ k' ∈ hbb_bg_keys).
Proof. apply combined_keys_aux. Qed.

(** X14. When ["Hbb"] is not itself a Higgs background key, combining
    the result once more changes nothing: keys and histograms are
    returned as they are. *)
Theorem combine_twice hists bg_keys :
  "Hbb" ∉ hbb_bg_keys →
  _combine_hbb_bgs (_combine_hbb_bgs hists bg_keys).1
                   (_combine_hbb_bgs hists bg_keys).2
  = _combine_hbb_bgs hists bg_keys.
Proof.
  intros Hhbb. rewrite combine_without_hbb;
    [by destruct (_combine_hbb_bgs hists bg_keys)|].
  intros k [[_ Hk]|[-> _]]%combined_keys_aux; done.
Qed.

End CombineHbb.

(** * The properties on the small batch *)

Section Runs.

Import Batch.

Local Abbreviation int := IntLiteral.int.

(** Goals that a decision procedure settles by evaluation. *)
Ltac by_evaluation := apply (bool_decide_unpack _); vm_compute; exact I.

(** The run of the script on the batch: [ttbar] has job 2 running,
    [qcd] is reported whole, and the check of [wjets] raises. *)
Example main_on_batch :
  let r := main int skim (storage skim) ["2018_ttbar_2.sh" +:+ newline] initial in
  r.1 = inl (KeyError "wjets")
  ∧ missing_files r.2
    = [ "condor/skimmer/24Nov/2018_qcd_0.jdl";
        "condor/skimmer/24Nov/2018_qcd_1.jdl" ]
  ∧ err_files r.2
    = [ "condor/skimmer/24Nov/logs/2018_qcd_0.err";
        "condor/skimmer/24Nov/logs/2018_qcd_1.err" ].
Proof. vm_compute. done. Qed.

(** C1 on the batch: [wjets] has both output directories and no
    directive; its check raises [KeyError]. *)
Lemma no_count_raises_KeyError_witness :
  counts !! "wjets" = None
  ∧ (check_sample int skim (storage skim) counts running_jobs "wjets" initial).1
    = inl (KeyError "wjets").
Proof.
  split; [vm_compute; reflexivity|].
  apply no_count_raises_KeyError.
  - vm_compute; reflexivity.
  - vm_compute. eexists; reflexivity.
  - intros _. vm_compute. eexists; reflexivity.
Defined.

(** C2 as stated fails on the batch: [zjets] has a parquet directory,
    no pickles directory and two expected jobs; job 0 is not running and
    is not reported. *)
Lemma no_pickles_not_reported :
  path_exists (storage skim) (pickles_dir skim "zjets") = false
  ∧ path_exists (storage skim) (parquet_dir skim "zjets") = true
  ∧ counts !! "zjets" = Some (Np.Integer 2)
  ∧ 0 ∈ Py.range 2
  ∧ ¬ running skim running_jobs "zjets" 0
  ∧ ¬ reported skim
        (check_sample int skim (storage skim) counts running_jobs
           "zjets" initial).2 "zjets" 0.
Proof.
  split_and!; try (vm_compute; reflexivity).
  - by_evaluation.
  - unfold running. by_evaluation.
  - unfold reported. by_evaluation.
Qed.

(** C2 as amended, on the batch: the check of [zjets] ends normally
    with the warning and without a report. *)
Lemma no_pickles_skips_witness :
  ∃ t,
    check_sample int skim (storage skim) counts running_jobs "zjets" initial
    = (inr tt,
       State [] [] ([] ++ t ++ [PrintRed "No pickles directory for zjets!"])).
Proof.
  apply (no_pickles_skips int skim (storage skim) counts running_jobs
           "zjets" initial).
  - vm_compute; reflexivity.
  - intros _. vm_compute. eexists; reflexivity.
Defined.

(** C3 as stated fails on the batch: the run on [ttbar], [qcd] and
    [zjets] ends normally; [zjets] has the expected count 2 and a parquet
    directory, and no pickles directory, so that the guard of line 128
    leaves it aside; its index 0 is in none of the three categories. *)
Lemma index_in_no_category :
  let r := reconcile int skim (storage skim) counts running_jobs
             ["ttbar"; "qcd"; "zjets"] initial in
  missing_files initial = []
  ∧ r.1 = inr tt
  ∧ "zjets" ∈ ["ttbar"; "qcd"; "zjets"]
  ∧ counts !! "zjets" = Some (Np.Integer 2)
  ∧ 0 <= 0 < 2
  ∧ ¬ complete int skim (storage skim) "zjets" 0
  ∧ ¬ in_flight int skim (storage skim) running_jobs "zjets" 0
  ∧ ¬ reported skim r.2 "zjets" 0.
Proof.
  intros r.
  assert (¬ running skim running_jobs "zjets" 0) as Hrun.
  { unfold running. by_evaluation. }
  split; [reflexivity|].
  split; [vm_compute; reflexivity|].
  split; [by_evaluation|].
  split; [vm_compute; reflexivity|].
  split; [lia|].
  split; [|split].
  - unfold complete, produced_primary.
    assert (produced int (storage skim) (pickles_dir skim "zjets") = None)
      as -> by (vm_compute; reflexivity).
    intros [H _]. by apply elem_of_nil in H.
  - intros [H _]. by apply Hrun.
  - subst r. unfold reported. by_evaluation.
Qed.

(** C3 on the batch: after the normal run on [ttbar] and [qcd], index 2
    of [ttbar], whose pickle is missing and whose job is running, is in
    exactly one category. *)
Lemma every_index_in_one_category_witness :
  let σ' := (reconcile int skim (storage skim) counts running_jobs
               ["ttbar"; "qcd"] initial).2 in
  (complete int skim (storage skim) "ttbar" 2
   ∧ ¬ in_flight int skim (storage skim) running_jobs "ttbar" 2
   ∧ ¬ reported skim σ' "ttbar" 2)
  ∨ (¬ complete int skim (storage skim) "ttbar" 2
     ∧ in_flight int skim (storage skim) running_jobs "ttbar" 2
     ∧ ¬ reported skim σ' "ttbar" 2)
  ∨ (¬ complete int skim (storage skim) "ttbar" 2
     ∧ ¬ in_flight int skim (storage skim) running_jobs "ttbar" 2
     ∧ reported skim σ' "ttbar" 2).
Proof.
  apply (every_index_in_one_category int skim (storage skim) counts
           running_jobs ["ttbar"; "qcd"] initial _ "ttbar" 3 2).
  - reflexivity.
  - vm_compute; reflexivity.
  - by_evaluation.
  - vm_compute; reflexivity.
  - intros [H _]. vm_compute in H. discriminate H.
  - lia.
Defined.

(** C4 on the batch: job 0 of [qcd] is running and is not reported,
    although [qcd] has no parquet directory. *)
Lemma running_not_reported_witness :
  running skim running_jobs "qcd" 0
  ∧ ¬ reported skim
        (reconcile int skim (storage skim) counts running_jobs
           ["ttbar"; "qcd"; "zjets"; "wjets"] initial).2 "qcd" 0.
Proof.
  assert (running skim running_jobs "qcd" 0) as Hrun.
  { unfold running. by_evaluation. }
  split; [exact Hrun|].
  apply running_not_reported; [reflexivity|exact Hrun].
Defined.


(** C6 on the batch: with the ["trigger"] processor, the run on the tree
    without any parquet directory is the run on the full tree. *)
Lemma trigger_ignores_secondary_witness :
  reconcile int trig (storage trig) counts running_jobs ["ttbar"] initial
  = reconcile int trig (storage_no_parquet trig) counts running_jobs
      ["ttbar"] initial.
Proof.
  apply trigger_ignores_secondary.
  - reflexivity.
  - intros s ->%list_elem_of_singleton. vm_compute. reflexivity.
Defined.

(** C8 as stated fails at the top of [int64]: the only directive of
    sample [s] encodes the index [2^63 - 1], and the count built is
    [- 2^63], not [2^63]. *)
Lemma expected_count_wraps :
  build_jdl_dict int skim ["s"] ["2018_s_9223372036854775807.jdl"] initial
  = (inr {[ "s" := Np.Integer (- 9223372036854775808) ]}, initial)
  ∧ encoded_indices int skim ["2018_s_9223372036854775807.jdl"] "s"
      [9223372036854775807]
  ∧ is_max 9223372036854775807 [9223372036854775807]
  ∧ ({[ "s" := Np.Integer (- 9223372036854775808) ]}
       : gmap string Np.scalar) !! "s"
    ≠ Some (Np.Integer (9223372036854775807 + 1)).
Proof.
  split_and!.
  - vm_compute. reflexivity.
  - apply encoded_indices_run. vm_compute. reflexivity.
  - split; [left|]. intros i ->%list_elem_of_singleton. lia.
  - vm_compute. discriminate.
Qed.

(** C8 on the batch: the directives of [ttbar] encode 0, 1 and 2, and
    its expected count is 3. *)
Lemma expected_count_is_max_plus_one_witness :
  let jdls := [ "2018_ttbar_0.jdl"; "2018_ttbar_2.jdl"; "2018_qcd_5.jdl";
                "2018_ttbar_1.jdl"; "2017_ttbar_7.jdl" ] in
  ∃ d,
    build_jdl_dict int skim ["ttbar"; "wjets"] jdls initial = (inr d, initial)
    ∧ d !! "ttbar" = Some (Np.Integer (2 + 1))
    ∧ d !! "wjets" = None.
Proof.
  intros jdls. exists {[ "ttbar" := Np.Integer 3 ]}.
  assert (build_jdl_dict int skim ["ttbar"; "wjets"] jdls initial
          = (inr {[ "ttbar" := Np.Integer 3 ]}, initial)) as Hbuild.
  { vm_compute. reflexivity. }
  split_and!; [exact Hbuild|..].
  - destruct (expected_count_is_max_plus_one int skim _ _ _ _ _ "ttbar" Hbuild)
      as [_ H].
    destruct H as (x & Hx & _ & Hmax); [by_evaluation|].
    assert (encoded_indices int skim jdls "ttbar" [0; 2; 1]) as Hx'.
    { apply encoded_indices_run. vm_compute. reflexivity. }
    rewrite (encoded_indices_unique _ _ _ _ _ _ Hx Hx') in Hmax.
    apply Hmax.
    + split; [by_evaluation|].
      intros i Hi. repeat (apply elem_of_cons in Hi as [->|Hi]; [lia|]).
      by apply elem_of_nil in Hi.
    + unfold Np.int64_min, Np.int64_max. lia.
  - destruct (expected_count_is_max_plus_one int skim _ _ _ _ _ "wjets" Hbuild)
      as [_ H].
    destruct H as (x & Hx & Hnil & _); [by_evaluation|].
    apply Hnil.
    assert (encoded_indices int skim jdls "wjets" []) as Hx'.
    { apply encoded_indices_run. vm_compute. reflexivity. }
    exact (encoded_indices_unique _ _ _ _ _ _ Hx Hx').
Defined.

(** C9 on the batch: listing the pickle of index 1 twice and the parquet
    files in another order changes no report. *)
Lemma duplicate_outputs_ignored_witness :
  let r1 := reconcile int skim (storage skim) counts running_jobs
              ["ttbar"] initial in
  let r2 := reconcile int skim (storage_dup skim) counts running_jobs
              ["ttbar"] initial in
  missing_files r1.2 = missing_files r2.2
  ∧ err_files r1.2 = err_files r2.2
  ∧ (r1.1 = inr tt ↔ r2.1 = inr tt).
Proof.
  apply duplicate_outputs_ignored.
  intros s ->%list_elem_of_singleton. split.
  - split; [vm_compute; reflexivity|].
    assert (produced int (storage skim) (parquet_dir skim "ttbar")
            = Some [0; 1; 2]) as -> by (vm_compute; reflexivity).
    assert (produced int (storage_dup skim) (parquet_dir skim "ttbar")
            = Some [2; 0; 1; 1]) as -> by (vm_compute; reflexivity).
    simpl. intros i. rewrite !elem_of_cons, !elem_of_nil. tauto.
  - split; [vm_compute; reflexivity|].
    assert (produced int (storage skim) (pickles_dir skim "ttbar")
            = Some [0; 1]) as -> by (vm_compute; reflexivity).
    assert (produced int (storage_dup skim) (pickles_dir skim "ttbar")
            = Some [0; 1; 1]) as -> by (vm_compute; reflexivity).
    simpl. intros i. rewrite !elem_of_cons, !elem_of_nil. tauto.
Defined.

End Runs.


(** * The further properties on the two batches *)

Section FurtherRuns.

Import Batch.

Local Abbreviation int := IntLiteral.int.

Ltac evaluated := apply (bool_decide_unpack _); vm_compute; exact I.

(** X1 on the directive of job 12 of [QCD_HT]. *)
Lemma directive_name_decodes_witness :
  jdl_name skim "QCD_HT" 12 = "2018_QCD_HT_12.jdl"
  ∧ Py.endswith (jdl_name skim "QCD_HT" 12) ".jdl" = true
  ∧ jdl_index_text (jdl_name skim "QCD_HT" 12) = Py.str 12
  ∧ ∀ sample', jdl_matches skim sample' (jdl_name skim "QCD_HT" 12) = true
               ↔ sample' = "QCD_HT".
Proof.
  split; [vm_compute; reflexivity|].
  apply (directive_name_decodes skim "QCD_HT" 12). evaluated.
Defined.

(** X2 on a directive counted for [QCD_HT]. *)
Lemma counted_directive_shape_witness :
  "2018_QCD_HT_12.jdl"
  = year skim +:+ "_" +:+ "QCD_HT" +:+ "_"
      +:+ jdl_index_text "2018_QCD_HT_12.jdl" +:+ ".jdl".
Proof.
  apply (counted_directive_shape skim "QCD_HT" "2018_QCD_HT_12.jdl").
  - vm_compute; reflexivity.
  - vm_compute; reflexivity.
  - discriminate.
Defined.

(** X3 on the second batch: three jobs of [QCD_HT], two of [ttbar],
    none of [empty], and a sample [wjets] that was not submitted. *)
Lemma counts_of_submitted_batch_witness :
  ∃ d,
    build_jdl_dict int skim ["QCD_HT"; "ttbar"; "empty"; "wjets"]
      (directives skim Tidy.submitted) initial = (inr d, initial)
    ∧ d !! "QCD_HT" = Some (Np.Integer 3)
    ∧ d !! "ttbar" = Some (Np.Integer 2)
    ∧ d !! "empty" = None
    ∧ d !! "wjets" = None.
Proof.
  destruct (counts_of_submitted_batch int skim Tidy.submitted
              ["QCD_HT"; "ttbar"; "empty"; "wjets"] initial)
    as (d & Hd & H).
  - evaluated.
  - evaluated.
  - intros s n i Hin Hi.
    assert (n <= 3) as Hn.
    { repeat (apply elem_of_cons in Hin as [Heq|Hin];
              [injection Heq as -> ->; lia|]).
      by apply elem_of_nil in Hin. }
    assert (i = 0 ∨ i = 1 ∨ i = 2) as Hcases by lia.
    destruct Hcases as [Hi0|[Hi0|Hi0]]; rewrite Hi0; vm_compute; reflexivity.
  - intros s n Hin.
    repeat (apply elem_of_cons in Hin as [Heq|Hin];
            [injection Heq as -> ->; unfold Np.int64_max; lia|]).
    by apply elem_of_nil in Hin.
  - exists d. split; [exact Hd|]. split_and!.
    + apply (H "QCD_HT"); [evaluated|evaluated|lia].
    + apply (H "ttbar"); [evaluated|evaluated|lia].
    + apply (H "empty"); [evaluated|]. intros n Hin.
      repeat (apply elem_of_cons in Hin as [Heq|Hin]; [simplify_eq; lia|]).
      by apply elem_of_nil in Hin.
    + apply (H "wjets"); [evaluated|]. intros n Hin.
      repeat (apply elem_of_cons in Hin as [Heq|Hin]; [simplify_eq; lia|]).
      by apply elem_of_nil in Hin.
Defined.

(** X7 on the second batch, where the script ends normally. *)
Lemma summary_ends_normal_run_witness :
  ∃ t,
    trace (main int Tidy.resubmit (Tidy.storage Tidy.resubmit)
             ["2018_ttbar_1.sh" +:+ newline] initial).2
    = t ++ (Print <$> [ "2 files to re-run:";
                        "condor/skimmer/24Nov/2018_QCD_HT_1.jdl";
                        "condor/skimmer/24Nov/2018_ttbar_0.jdl";
                        newline +:+ "Error files:";
                        "condor/skimmer/24Nov/logs/2018_QCD_HT_1.err";
                        "condor/skimmer/24Nov/logs/2018_ttbar_0.err" ]).
Proof.
  destruct (summary_ends_normal_run int Tidy.resubmit
              (Tidy.storage Tidy.resubmit) ["2018_ttbar_1.sh" +:+ newline]
              (main int Tidy.resubmit (Tidy.storage Tidy.resubmit)
                 ["2018_ttbar_1.sh" +:+ newline] initial).2)
    as [t Ht].
  - vm_compute. reflexivity.
  - exists t. rewrite Ht. apply (f_equal (app t)). vm_compute. reflexivity.
Defined.

(** X8 on an empty storage tree. *)
Lemma failure_before_any_output_witness :
  ∃ e, main int skim (tree []) [] initial = (inl e, initial).
Proof.
  apply failure_before_any_output. left. intros l. vm_compute. discriminate.
Defined.

(** X9 on the first batch. *)
Lemma no_job_reported_twice_witness :
  NoDup (missing_files
           (reconcile int skim (storage skim) counts running_jobs
              ["ttbar"; "qcd"; "zjets"] initial).2)
  ∧ NoDup (err_files
             (reconcile int skim (storage skim) counts running_jobs
                ["ttbar"; "qcd"; "zjets"] initial).2).
Proof.
  apply no_job_reported_twice; [evaluated|reflexivity|reflexivity].
Defined.

(** X10 on the first batch: the report of job 1 of [qcd]. *)
Lemma reports_are_sound_witness :
  ∃ sample i n,
    "condor/skimmer/24Nov/2018_qcd_1.jdl" = jdl_file skim sample i
    ∧ sample ∈ ["ttbar"; "qcd"; "zjets"]
    ∧ counts !! sample = Some (Np.Integer n)
    ∧ 0 <= i < n
    ∧ ¬ complete int skim (storage skim) sample i.
Proof.
  apply (reports_are_sound int skim (storage skim) counts running_jobs
           ["ttbar"; "qcd"; "zjets"] initial).
  - reflexivity.
  - evaluated.
Defined.

(** X11 on the pickles of [QCD_HT] in the second batch. *)
Lemma output_listing_decodes_witness :
  produced int (Tidy.storage skim) (pickles_dir skim "QCD_HT") = Some [2; 0].
Proof.
  apply (output_listing_decodes int (Tidy.storage skim) _ "out" "pkl").
  - evaluated.
  - intros i Hi.
    repeat (apply elem_of_cons in Hi as [->|Hi]; [vm_compute; reflexivity|]).
    by apply elem_of_nil in Hi.
  - vm_compute. reflexivity.
Defined.


(** Where the directives of [s] encode the indices [0] and [2^63], the
    expected count of [s] is a [np.float64], and the script ends with
    [TypeError] at the [range] of line 108, after the two lines printed
    for [s]. *)
Example main_on_float64_count :
  build_jdl_dict int skim ["s"]
    ["2018_s_0.jdl"; "2018_s_9223372036854775808.jdl"] initial
  = (inr {[ "s" := Np.Float64 ]}, initial)
  ∧ main int skim (Tidy.beyond_int64 skim) [] initial
    = (inl (TypeError float64_not_integer),
       State [] [] [ System "condor_q | awk '{print $9}' > running_jobs.txt";
                     Print "Checking s";
                     PrintRed "No parquet directory for s!" ]).
Proof. split; vm_compute; reflexivity. Qed.

(** An index of [2^63] alone gives a [uint64] array and the count
    [2^63 + 1]; an index of [2^64] gives an [object] array and the count
    [2^64 + 1]. *)
Example counts_beyond_int64 :
  build_jdl_dict int skim ["s"; "t"]
    ["2018_s_9223372036854775808.jdl"; "2018_t_18446744073709551616.jdl";
     "2018_t_3.jdl"] initial
  = (inr (<[ "s" := Np.Integer 9223372036854775809 ]>
            {[ "t" := Np.Integer 18446744073709551617 ]}), initial).
Proof. vm_compute. reflexivity. Qed.

(** X15 on the tree with the indices [0] and [2^63]. *)
Lemma TypeError_needs_index_beyond_int64_witness :
  float64_not_integer = float64_not_integer
  ∧ ∃ samples names sample x i,
      Tidy.beyond_int64 skim (xrddir skim) = Some (Dir samples)
      ∧ Tidy.beyond_int64 skim (condor_dir skim) = Some (Dir names)
      ∧ sample ∈ samples
      ∧ encoded_indices int skim
          (filter (λ jdl, Py.endswith jdl ".jdl") names) sample x
      ∧ i ∈ x ∧ Np.int64_max < i <= Np.uint64_max.
Proof.
  apply (TypeError_needs_index_beyond_int64 int skim
           (Tidy.beyond_int64 skim) []).
  vm_compute. reflexivity.
Defined.

(** X14 on four background keys, two of them Higgs backgrounds. *)
Lemma combine_twice_witness :
  let combine := Plotting._combine_hbb_bgs nat S Plotting.some_hbb_keys in
  combine 0%nat ["QCD"; "ZHbb"; "TT"; "ggFHbb"] = (1%nat, ["QCD"; "TT"; "Hbb"])
  ∧ combine 1%nat ["QCD"; "TT"; "Hbb"] = (1%nat, ["QCD"; "TT"; "Hbb"]).
Proof.
  intros combine.
  assert (combine 0%nat ["QCD"; "ZHbb"; "TT"; "ggFHbb"]
          = (1%nat, ["QCD"; "TT"; "Hbb"])) as E by (vm_compute; reflexivity).
  split; [exact E|].
  pose proof (combine_twice nat S Plotting.some_hbb_keys 0%nat
                ["QCD"; "ZHbb"; "TT"; "ggFHbb"]) as H.
  fold combine in H. rewrite E in H. apply H. evaluated.
Defined.

End FurtherRuns.
